(** * iRedAPD throttling plugin: a shallow embedding of plugins/throttling.py

    The plugin throttles mail by number of messages, accumulated size and
    single message size over a tracking period.  The embedding follows the
    Python source statement by statement:

    - Python exceptions are an explicit error result;
    - [conn.execute] and [time.time] are effects, threaded through a small
      state-and-error monad over a [world] (the database behind the
      connection, the clock, and the list of statements handed to
      [conn.execute]);
    - the dictionary [sql_update_sets] is a [gmap] from record ids to the
      staged assignment strings;
    - functions imported from [libs], [settings] and [web], and Python's
      [int], are fields of a record [Libs]: their code is not part of the
      plugin.  Logging is not modelled: it changes neither verdicts nor the
      database. *)

From stdpp Require Import gmap strings list pretty.
From Stdlib Require Import ZArith Lia Ascii String.

Local Open Scope string_scope.
Local Open Scope Z_scope.
Local Open Scope list_scope.

(** ** Python values and exceptions *)

Inductive exn := TypeError | ValueError | UnboundLocalError.

Inductive result (A : Type) :=
  | Ok (a : A)
  | Raise (e : exn).
Arguments Ok {A} a.
Arguments Raise {A} e.

(** The kinds of value [str.join] can be handed: only a sequence of strings
    can be joined. *)
Inductive pyval :=
  | PyInt (n : Z)
  | PyStr (s : string)
  | PyList (l : list string).

Module Py.

(** [s.split(sep)] for a one-character separator: never returns the empty
    list. *)
Fixpoint split (sep : ascii) (s : string) : list string :=
  match s with
  | EmptyString => [EmptyString]
  | String c s' =>
      if bool_decide (c = sep) then EmptyString :: split sep s'
      else match split sep s' with
           | [] => [String c EmptyString]
           | w :: ws => String c w :: ws
           end
  end.

(** [c in s] for a one-character [c]. *)
Fixpoint contains (c : ascii) (s : string) : bool :=
  match s with
  | EmptyString => false
  | String d s' => bool_decide (d = c) || contains c s'
  end.

(** Truth value of a string: [if s:]. *)
Definition truthy (s : string) : bool :=
  match s with EmptyString => false | _ => true end.

Fixpoint chars (s : string) : list string :=
  match s with
  | EmptyString => []
  | String c s' => String c EmptyString :: chars s'
  end.

Fixpoint concat_with (sep : string) (l : list string) : string :=
  match l with
  | [] => ""
  | [x] => x
  | x :: rest => x +:+ sep +:+ concat_with sep rest
  end.

(** [sep.join(v)]: an integer is not iterable, a string is iterated
    character by character. *)
Definition join (sep : string) (v : pyval) : result string :=
  match v with
  | PyInt _ => Raise TypeError
  | PyStr s => Ok (concat_with sep (chars s))
  | PyList l => Ok (concat_with sep l)
  end.

(** [s.startswith(p)]. *)
Definition startswith (p s : string) : bool := String.prefix p s.

End Py.

(** ** The database rows and the outside world *)

(** One row of [throttle_sender] / [throttle_rcpt], in the column order of the
    SELECT statement.  The columns are integers; [user] is the match key. *)
Record row := Row {
  t_id : Z;
  t_user : string;
  priority : Z;
  period : Z;
  max_msgs : Z;
  max_quota : Z;
  msg_size : Z;
  cur_msgs : Z;
  cur_quota : Z;
  init_time : Z;
  last_time : Z
}.

(** What the plugin imports.  [py_int s] is Python's [int(s)] on a string:
    [None] stands for the ValueError it raises.  [run_select] and
    [run_update] are the database engine behind [conn.execute]: the rows a
    SELECT returns, and the effect of an UPDATE. *)
Record Libs (database : Type) := {
  py_int : string → option Z;
  get_valid_addresses_from_email : string → list string;
  is_ipv4 : string → bool;
  wildcard_ipv4 : string → list string;
  sqllist : list string → string;
  sqlliteral : string → string;
  is_trusted_client : string → bool;
  THROTTLE_BYPASS_MYNETWORKS : bool;
  SMTP_ACTIONS : string → string;
  run_select : string → database → list row;
  run_update : string → database → database
}.
Arguments py_int {database} _ _.
Arguments get_valid_addresses_from_email {database} _ _.
Arguments is_ipv4 {database} _ _.
Arguments wildcard_ipv4 {database} _ _.
Arguments sqllist {database} _ _.
Arguments sqlliteral {database} _ _.
Arguments is_trusted_client {database} _ _.
Arguments THROTTLE_BYPASS_MYNETWORKS {database} _.
Arguments SMTP_ACTIONS {database} _ _.
Arguments run_select {database} _ _ _.
Arguments run_update {database} _ _ _.

(** The state the plugin acts on: the database, the clock ([clock n] is the
    value of [int(time.time())] at the [n]-th reading, [ticks] counts the
    readings so far) and every statement passed to [conn.execute]. *)
Record world (database : Type) := World {
  db : database;
  clock : nat → Z;
  ticks : nat;
  executed : list string
}.
Arguments World {database} _ _ _ _.
Arguments db {database} _.
Arguments clock {database} _ _.
Arguments ticks {database} _.
Arguments executed {database} _.

(** ** convert_throttle_setting_to_dict *)

Inductive setting_value :=
  | VInt (n : Z)
  | VStr (s : string).

Section Settings.
Context {database : Type} (L : Libs database).

(** The value stored for one fragment: [int(value)] when it succeeds, the
    string itself when [int] raises (the bare [except: pass]). *)
Definition convert_value (value_is_integer : bool) (value : string) : setting_value :=
  if value_is_integer then
    match py_int L value with
    | Some n => VInt n
    | None => VStr value
    end
  else VStr value.

(** The [for item in setting_items] loop.  [key, value = item.split(':')]
    raises ValueError unless the split has exactly two parts. *)
Fixpoint convert_items (value_is_integer : bool) (items : list string)
    (sd : gmap string setting_value) : result (gmap string setting_value) :=
  match items with
  | [] => Ok sd
  | item :: rest =>
      if Py.truthy item then
        match Py.split ":"%char item with
        | [key; value] =>
            convert_items value_is_integer rest
              (<[key := convert_value value_is_integer value]> sd)
        | _ => Raise ValueError
        end
      else convert_items value_is_integer rest sd
  end.

Definition setting_items (s : string) : list string :=
  List.filter (Py.contains ":"%char) (Py.split ";"%char s).

Definition convert_throttle_setting_to_dict (s : string) (value_is_integer : bool)
    : result (gmap string setting_value) :=
  if negb (Py.truthy s) then Ok ∅
  else convert_items value_is_integer (setting_items s) ∅.

End Settings.

(** ** The effect monad: state passing over the world, with exceptions *)

Section Effects.
Context {database : Type}.

Definition M (A : Type) : Type := world database → result A * world database.

Definition ret {A} (a : A) : M A := fun w => (Ok a, w).

Definition bind {A B} (m : M A) (k : A → M B) : M B :=
  fun w =>
    match m w with
    | (Ok a, w') => k a w'
    | (Raise e, w') => (Raise e, w')
    end.

Definition lift {A} (r : result A) : M A := fun w => (r, w).

(** [int(time.time())]: one more reading of the clock. *)
Definition time_time : M Z :=
  fun w => (Ok (clock w (ticks w)),
            World (db w) (clock w) (S (ticks w)) (executed w)).

End Effects.
Arguments M : clear implicits.

Notation "'let*' x ':=' m 'in' k" := (bind m (fun x => k))
  (at level 10, x name, m at level 100, k at level 200).
Notation "m ';;;' k" := (bind m (fun _ => k))
  (at level 100, k at level 200, right associativity).

(** ** apply_throttle *)

(** The local variables that live across iterations of the [for rcd in
    sql_records] loop.  [t_id_var] is the Python variable [t_id]: unbound
    before the first iteration, afterwards the id of the record read last. *)
Record loop_state := LoopState {
  continue_check_msg_size : bool;
  continue_check_max_msgs : bool;
  continue_check_max_quota : bool;
  sql_update_sets : gmap Z (list string);
  t_id_var : option Z
}.

(** How one iteration ends: a [return] out of the function, or the next
    iteration. *)
Inductive flow :=
  | Return (action : string)
  | Next (st : loop_state).

(** [sql_update_sets[t_id].append(x)]. *)
Definition stage (id : Z) (x : string) (sets : gmap Z (list string)) : gmap Z (list string) :=
  alter (fun l => (l ++ [x])) id sets.

(** Lines 219-231: is the tracking window over, and the counters used for
    the comparisons of this iteration. *)
Definition tracking (now : Z) (rcd : row) : bool * Z * Z :=
  if bool_decide (now > init_time rcd + period rcd)
  then (true, 0, 0)
  else (false, cur_msgs rcd, cur_quota rcd).

(** The two statements, with the whitespace of the triple-quoted templates
    reduced to single blanks; [pretty id] is ['%d' % id] on an integer. *)
Definition select_sql (sql_table addrs : string) : string :=
  "SELECT id, user, priority, period, max_msgs, max_quota, msg_size, cur_msgs, cur_quota, init_time, last_time FROM "
  +:+ sql_table +:+ " WHERE user IN " +:+ addrs +:+ " ORDER BY priority DESC".

Definition update_sql (sql_table sets : string) (id : Z) : string :=
  "UPDATE " +:+ sql_table +:+ " SET " +:+ sets +:+ " WHERE id=" +:+ pretty id.

Definition initial_state : loop_state :=
  LoopState true true true ∅ None.

Section Throttle.
Context {database : Type} (L : Libs database).

(** [conn.execute(sql)] followed by [fetchall()], for the SELECT.  The
    statement is taken to be answered with rows: an exception of the
    database driver is not modelled. *)
Definition conn_select (sql : string) : M database (list row) :=
  fun w => (Ok (run_select L sql (db w)),
            World (db w) (clock w) (ticks w) (executed w ++ [sql])).

(** [conn.execute(sql)] for an UPDATE. *)
Definition conn_update (sql : string) : M database () :=
  fun w => (Ok (),
            World (run_update L sql (db w)) (clock w) (ticks w) (executed w ++ [sql])).

(** Lines 256-266: the message size check of one record.  [inl] is the
    verdict returned at once, [inr] the flag and the staged updates. *)
Definition check_msg_size (size : Z) (rcd : row) (continue : bool)
    (sets : gmap Z (list string)) : string + bool * gmap Z (list string) :=
  if continue then
    let continue' := if bool_decide (msg_size rcd >= 0) then false else continue in
    if bool_decide (msg_size rcd > 0) then
      if bool_decide (size > msg_size rcd)
      then inl (SMTP_ACTIONS L "reject_exceed_msg_size")
      else inr (continue', stage (t_id rcd) "total_msgs = total_msgs + 1" sets)
    else inr (continue', sets)
  else inr (continue, sets).

(** Lines 268-278: the accumulated size check of one record, on the
    counter [cur_quota] of this iteration. *)
Definition check_max_quota (size cur_quota : Z) (rcd : row) (continue : bool)
    (sets : gmap Z (list string)) : string + bool * gmap Z (list string) :=
  if continue then
    let continue' := if bool_decide (max_quota rcd >= 0) then false else continue in
    if bool_decide (max_quota rcd > 0) then
      if bool_decide (cur_quota >= max_quota rcd)
      then inl (SMTP_ACTIONS L "reject_exceed_max_quota")
      else inr (continue', stage (t_id rcd) ("total_quota = total_quota + " +:+ pretty size) sets)
    else inr (continue', sets)
  else inr (continue, sets).

(** Lines 280-297: the assignments staged for a record that passed. *)
Definition stage_tracking (size : Z) (rcd : row) (tracking_expired : bool)
    (sets : gmap Z (list string)) : M database (gmap Z (list string)) :=
  let* sets :=
    (if tracking_expired then
       let* t := time_time in
       let sets := stage (t_id rcd) ("init_time = " +:+ pretty t) sets in
       let sets := if bool_decide (max_msgs rcd ≠ 0)
                   then stage (t_id rcd) "cur_msgs = 1" sets else sets in
       let sets := if bool_decide (max_quota rcd ≠ 0)
                   then stage (t_id rcd) ("cur_quota = " +:+ pretty size) sets else sets in
       ret sets
     else
       let sets := if bool_decide (max_msgs rcd ≠ 0)
                   then stage (t_id rcd) "cur_msgs = cur_msgs + 1" sets else sets in
       let sets := if bool_decide (max_quota rcd ≠ 0)
                   then stage (t_id rcd) ("cur_quota = cur_quota + " +:+ pretty size) sets
                   else sets in
       ret sets) in
  let* t := time_time in
  ret (stage (t_id rcd) ("last_time = " +:+ pretty t) sets).

(** Lines 233-297: the checks of the phase on one record, with the counters
of this iteration, and the staging when they pass.  [sets] is the dictionary
after [sql_update_sets[t_id] = []]. *)
Definition check_limits (protocol_state : string) (size : Z) (st : loop_state)
    (sets : gmap Z (list string)) (rcd : row)
    (tracking_expired : bool) (cur_msgs cur_quota : Z) : M database flow :=
  if bool_decide (protocol_state = "RCPT") && continue_check_max_msgs st then
    if continue_check_max_msgs st then
      if bool_decide (max_msgs rcd > 0) && bool_decide (cur_msgs >= max_msgs rcd)
      then ret (Return (SMTP_ACTIONS L "reject_exceed_max_msgs"))
      else
        let continue' := if bool_decide (max_msgs rcd >= 0) then false
                         else continue_check_max_msgs st in
        ret (Next (LoopState (continue_check_msg_size st) continue'
                     (continue_check_max_quota st) sets (Some (t_id rcd))))
    else
      ret (Next (LoopState (continue_check_msg_size st) (continue_check_max_msgs st)
                   (continue_check_max_quota st) sets (Some (t_id rcd))))
  else if bool_decide (protocol_state = "END-OF-MESSAGE")
          && (continue_check_msg_size st || continue_check_max_quota st) then
    match check_msg_size size rcd (continue_check_msg_size st) sets with
    | inl action => ret (Return action)
    | inr (continue_size, sets) =>
        match check_max_quota size cur_quota rcd (continue_check_max_quota st) sets with
        | inl action => ret (Return action)
        | inr (continue_quota, sets) =>
            let* sets := stage_tracking size rcd tracking_expired sets in
            ret (Next (LoopState continue_size (continue_check_max_msgs st)
                         continue_quota sets (Some (t_id rcd))))
        end
    end
  else
    ret (Next (LoopState (continue_check_msg_size st) (continue_check_max_msgs st)
                 (continue_check_max_quota st) sets (Some (t_id rcd)))).

(** The body of the loop (lines 191-297) for one record. *)
Definition check_record (protocol_state : string) (size : Z)
    (st : loop_state) (rcd : row) : M database flow :=
  if bool_decide (period rcd = 0) then ret (Return (SMTP_ACTIONS L "default"))
  else
    let sets := <[t_id rcd := []]> (sql_update_sets st) in
    let* now := time_time in
    let '(tracking_expired, cur_msgs, cur_quota) := tracking now rcd in
    check_limits protocol_state size st sets rcd tracking_expired cur_msgs cur_quota.

(** [for rcd in sql_records]. *)
Fixpoint walk (protocol_state : string) (size : Z) (st : loop_state)
    (sql_records : list row) : M database flow :=
  match sql_records with
  | [] => ret (Next st)
  | rcd :: rest =>
      let* f := check_record protocol_state size st rcd in
      match f with
      | Return action => ret (Return action)
      | Next st' => walk protocol_state size st' rest
      end
  end.

(** Lines 301-309, [for update_set in sql_update_sets]: iterating a
    dictionary yields its keys, so [update_set] is a record id, and
    [t_id] is still the variable left by the loop over the records. *)
Fixpoint commit (sql_table : string) (keys : list Z) (t_id : option Z) : M database () :=
  match keys with
  | [] => ret ()
  | update_set :: rest =>
      let* sql_update_set := lift (Py.join "," (PyInt update_set)) in
      let* id := lift (match t_id with
                       | Some id => Ok id
                       | None => Raise UnboundLocalError
                       end) in
      conn_update (update_sql sql_table (sqlliteral L sql_update_set) id) ;;;
      commit sql_table rest t_id
  end.

(** The keys of the dictionary, in the order the map enumerates them. *)
Definition keys (sets : gmap Z (list string)) : list Z := (map_to_list sets).*1.

Definition possible_addrs (user client_address : string) : list string :=
  let addrs := (get_valid_addresses_from_email L user ++ [client_address]) in
  if is_ipv4 L client_address then (addrs ++ wildcard_ipv4 L client_address) else addrs.

Definition sql_table (is_sender_throttling : bool) : string :=
  if is_sender_throttling then "throttle_sender" else "throttle_rcpt".

(** Lines 179-311: the verdict for the records the lookup returned, and the
commit step. *)
Definition throttle_records (table protocol_state : string) (size : Z)
    (sql_records : list row) : M database string :=
  match sql_records with
  | [] => ret (SMTP_ACTIONS L "default")
  | _ =>
      let* f := walk protocol_state size initial_state sql_records in
      match f with
      | Return action => ret action
      | Next st =>
          (if bool_decide (protocol_state = "END-OF-MESSAGE")
              && bool_decide (sql_update_sets st ≠ ∅)
           then commit table (keys (sql_update_sets st)) (t_id_var st)
           else ret ()) ;;;
          ret (SMTP_ACTIONS L "default")
      end
  end.

Definition apply_throttle (user client_address protocol_state : string) (size : Z)
    (is_sender_throttling : bool) : M database string :=
  let table := sql_table is_sender_throttling in
  let* sql_records :=
    conn_select (select_sql table (sqllist L (possible_addrs user client_address))) in
  throttle_records table protocol_state size sql_records.

(** ** restriction *)

(** The keyword arguments the policy server passes; [kw_size] and
    [kw_protocol_state] are the entries of [smtp_session_data]. *)
Record kwargs := Kwargs {
  kw_sender : string;
  kw_sender_domain : string;
  kw_recipient : string;
  kw_recipient_domain : string;
  kw_client_address : string;
  kw_protocol_state : string;
  kw_size : string
}.

(** Lines 323-327: [int(size)] when the attribute is not empty, else 0. *)
Definition session_size (size : string) : result Z :=
  if Py.truthy size then
    match py_int L size with
    | Some n => Ok n
    | None => Raise ValueError
    end
  else Ok 0.

Definition restriction (kw : kwargs) : M database string :=
  let* size := lift (session_size (kw_size kw)) in
  if bool_decide (kw_sender_domain kw = kw_recipient_domain kw)
  then ret (SMTP_ACTIONS L "default")
  else if THROTTLE_BYPASS_MYNETWORKS L && is_trusted_client L (kw_client_address kw)
  then ret (SMTP_ACTIONS L "default")
  else
    let* action := apply_throttle (kw_sender kw) (kw_client_address kw)
                     (kw_protocol_state kw) size true in
    if negb (Py.startswith "DUNNO" action) then ret action
    else
      let* action := apply_throttle (kw_recipient kw) (kw_client_address kw)
                       (kw_protocol_state kw) size false in
      if negb (Py.startswith "DUNNO" action) then ret action
      else ret (SMTP_ACTIONS L "default").

End Throttle.

(** ** Notions used to state the properties *)

Section Notions.
Context {database : Type} (L : Libs database).

(** The world after [n] more readings of the clock and nothing else. *)
Definition advance (n : nat) (w : world database) : world database :=
  World (db w) (clock w) (n + ticks w) (executed w).

(** The statement of the lookup and the world right after it. *)
Definition lookup_sql (user client_address : string) (is_sender_throttling : bool) : string :=
  select_sql (sql_table is_sender_throttling)
    (sqllist L (possible_addrs L user client_address)).

Definition queried (user client_address : string) (is_sender_throttling : bool)
    (w : world database) : world database :=
  World (db w) (clock w) (ticks w)
    (executed w ++ [lookup_sql user client_address is_sender_throttling]).

Definition matching (user client_address : string) (is_sender_throttling : bool)
    (w : world database) : list row :=
  run_select L (lookup_sql user client_address is_sender_throttling) (db w).

End Notions.

(** The three limits of a record, and the phase in which each is checked. *)
Inductive dimension := MsgSize | MaxMsgs | MaxQuota.

Definition limit (d : dimension) (rcd : row) : Z :=
  match d with
  | MsgSize => msg_size rcd
  | MaxMsgs => max_msgs rcd
  | MaxQuota => max_quota rcd
  end.

Definition phase_of (d : dimension) : string :=
  match d with
  | MaxMsgs => "RCPT"
  | MsgSize | MaxQuota => "END-OF-MESSAGE"
  end.

Definition continue_check (d : dimension) (st : loop_state) : bool :=
  match d with
  | MsgSize => continue_check_msg_size st
  | MaxMsgs => continue_check_max_msgs st
  | MaxQuota => continue_check_max_quota st
  end.



(** The verdict an iteration returns at once, if it does. *)
Definition returned {database : Type} (r : result flow * world database) : option string :=
  match r.1 with
  | Ok (Return action) => Some action
  | _ => None
  end.

(** Following the spec's words: a fragment is well formed when it is a
    key:integer pair, and the dictionary is built from the well-formed
    fragments only. *)
Definition well_formed_pair {database : Type} (L : Libs database) (fragment : string)
    : option (string * setting_value) :=
  match Py.split ":" fragment with
  | [key; value] => (λ n, (key, VInt n)) <$> py_int L value
  | _ => None
  end.

Definition permissive_dict {database : Type} (L : Libs database) (s : string)
    : gmap string setting_value :=
  foldl (λ sd kv, <[kv.1 := kv.2]> sd) ∅ (omap (well_formed_pair L) (Py.split ";" s)).

(** What the code keeps of a fragment: the pair of a fragment with exactly one
    colon, whatever its value. *)
Definition kept_pair {database : Type} (L : Libs database) (value_is_integer : bool)
    (fragment : string) : option (string * setting_value) :=
  match Py.split ":" fragment with
  | [key; value] => Some (key, convert_value L value_is_integer value)
  | _ => None
  end.



(** ** Notions for the further properties *)

(** The keys of SMTP_ACTIONS the plugin uses, and the key of the rejection
    of each limit. *)
Definition verdict_keys : list string :=
  ["default"; "reject_exceed_msg_size"; "reject_exceed_max_msgs"; "reject_exceed_max_quota"].

Definition verdict_key (d : dimension) : string :=
  match d with
  | MsgSize => "reject_exceed_msg_size"
  | MaxMsgs => "reject_exceed_max_msgs"
  | MaxQuota => "reject_exceed_max_quota"
  end.

(** The four replies of the table are different strings. *)
Definition distinct_verdicts {database : Type} (L : Libs database) : Prop :=
  NoDup (SMTP_ACTIONS L <$> verdict_keys).

(** The comparison that makes the check of [d] reject, on the stored
    counters of the record. *)
Definition exceeded (d : dimension) (size : Z) (rcd : row) : Prop :=
  match d with
  | MsgSize => size > msg_size rcd
  | MaxMsgs => cur_msgs rcd >= max_msgs rcd
  | MaxQuota => cur_quota rcd >= max_quota rcd
  end.

(** Two records with the same columns as far as the RCPT phase reads them. *)
Definition same_for_rcpt (rcd rcd' : row) : Prop :=
  t_id rcd' = t_id rcd ∧ period rcd' = period rcd ∧ max_msgs rcd' = max_msgs rcd
  ∧ cur_msgs rcd' = cur_msgs rcd ∧ init_time rcd' = init_time rcd.

(** Two records with the same columns as far as the END-OF-MESSAGE phase
    reads them. *)
Definition same_for_eom (rcd rcd' : row) : Prop :=
  t_id rcd' = t_id rcd ∧ period rcd' = period rcd ∧ max_msgs rcd' = max_msgs rcd
  ∧ max_quota rcd' = max_quota rcd ∧ msg_size rcd' = msg_size rcd
  ∧ cur_quota rcd' = cur_quota rcd ∧ init_time rcd' = init_time rcd.

(** ** A sample installation, used to run the plugin on concrete inputs *)

Module Sample.

Fixpoint digits (s : string) (acc : Z) : option Z :=
  match s with
  | EmptyString => Some acc
  | String c s' =>
      let n := Z.of_nat (nat_of_ascii c) - 48 in
      if bool_decide (0 ≤ n ≤ 9) then digits s' (10 * acc + n) else None
  end.

(** [int] on plain decimal literals with an optional minus sign. *)
Definition decimal_int (s : string) : option Z :=
  match s with
  | EmptyString => None
  | String "-" EmptyString => None
  | String "-" s' => Z.opp <$> digits s' 0
  | _ => digits s 0
  end.

(** Modelled from the spec: the table SMTP_ACTIONS of [libs] is not part of
the sources.  The spec names the verdicts (allow, reject-exceeds-message-size,
reject-exceeds-max-messages, reject-exceeds-quota) and the code recognises the
pass-through by its prefix DUNNO: the key "default" is the pass-through, the
three reject keys are three different REJECT replies. *)
Definition actions (key : string) : string :=
  if bool_decide (key = "default") then "DUNNO"
  else if bool_decide (key = "reject_exceed_msg_size") then "REJECT Message size too large"
  else if bool_decide (key = "reject_exceed_max_msgs") then "REJECT Exceeds max messages"
  else if bool_decide (key = "reject_exceed_max_quota") then "REJECT Exceeds quota"
  else "".

(** A database that answers every lookup with its rows, in the order
    stored, and counts the UPDATE statements applied to it. *)
Definition database : Type := list row * nat.

(** A stand-in for the address candidates of [libs]: the address itself, its
    domain with a leading at sign, and the catch-all. *)
Definition candidates (user : string) : list string :=
  match Py.split "@" user with
  | [_; domain] => [user; "@" +:+ domain; "@."]
  | _ => [user; "@."]
  end.

Definition libs (bypass : bool) (trusted : string → bool) : Libs database := {|
  py_int := decimal_int;
  get_valid_addresses_from_email := candidates;
  is_ipv4 := λ _, false;
  wildcard_ipv4 := λ _, [];
  sqllist := λ addrs, "(" +:+ Py.concat_with "," addrs +:+ ")";
  sqlliteral := λ s, s;
  is_trusted_client := trusted;
  THROTTLE_BYPASS_MYNETWORKS := bypass;
  SMTP_ACTIONS := actions;
  run_select := λ _ d, d.1;
  run_update := λ _ d, (d.1, S d.2)
|}.

Definition L : Libs database := libs false (λ _, false).

(** A world holding [rows], in which every reading of the clock gives
    [now]. *)
Definition at_time (now : Z) (rows : list row) : world database :=
  World (rows, 0%nat) (λ _, now) 0 [].

End Sample.

(** * Lemmas *)

(** ** Frame lemmas: what the loop and the commit step leave alone *)

Section Frame.
Context {database : Type} (L : Libs database).
Implicit Types w : world database.

Lemma advance_0 (w : world database) : advance 0 w = w.
Proof. by destruct w. Qed.

Lemma advance_advance (n m : nat) (w : world database) :
  advance n (advance m w) = advance (n + m) w.
Proof. unfold advance; simpl. f_equal. lia. Qed.

Lemma time_time_advance (w : world database) :
  time_time w = (Ok (clock w (ticks w)), advance 1 w).
Proof. reflexivity. Qed.

Lemma dom_stage (id : Z) (x : string) (sets : gmap Z (list string)) :
  dom (stage id x sets) = dom sets.
Proof. unfold stage. apply dom_alter_L. Qed.

Lemma stage_tracking_total size rcd expired sets w :
  ∃ sets', stage_tracking size rcd expired sets w
           = (Ok sets', advance (if expired then 2 else 1) w)
           ∧ dom sets' = dom sets.
Proof.
  unfold stage_tracking, bind, ret. destruct expired; simpl;
    (eexists; split; [reflexivity|]);
    repeat case_bool_decide; by rewrite ?dom_stage.
Qed.

Lemma check_msg_size_dom size rcd c sets c' sets' :
  check_msg_size L size rcd c sets = inr (c', sets') → dom sets' = dom sets.
Proof.
  unfold check_msg_size. intros H.
  destruct c; repeat case_bool_decide; simplify_eq; by rewrite ?dom_stage.
Qed.

Lemma check_max_quota_dom size cq rcd c sets c' sets' :
  check_max_quota L size cq rcd c sets = inr (c', sets') → dom sets' = dom sets.
Proof.
  unfold check_max_quota. intros H.
  destruct c; repeat case_bool_decide; simplify_eq; by rewrite ?dom_stage.
Qed.

(** One iteration never raises and touches nothing but the clock. *)
Lemma check_record_total ps size st rcd w :
  ∃ f n, check_record L ps size st rcd w = (Ok f, advance n w).
Proof.
  unfold check_record. case_bool_decide.
  { exists (Return (SMTP_ACTIONS L "default")), 0%nat. by rewrite advance_0. }
  unfold bind at 1. rewrite time_time_advance.
  destruct (tracking _ rcd) as [[expired cm] cq]. unfold check_limits.
  destruct (bool_decide (ps = "RCPT") && continue_check_max_msgs st).
  { destruct (continue_check_max_msgs st);
      [destruct (bool_decide (max_msgs rcd > 0) && bool_decide (cm >= max_msgs rcd))|];
      eexists _, 1%nat; reflexivity. }
  destruct (bool_decide (ps = "END-OF-MESSAGE") && _).
  2: { eexists _, 1%nat; reflexivity. }
  destruct (check_msg_size _ _ _ _ _) as [a|[c1 s1]].
  { eexists _, 1%nat; reflexivity. }
  destruct (check_max_quota _ _ _ _ _ _) as [a|[c2 s2]].
  { eexists _, 1%nat; reflexivity. }
  unfold bind.
  destruct (stage_tracking_total size rcd expired s2 (advance 1 w)) as (s3 & -> & _).
  rewrite advance_advance. eexists _, _; reflexivity.
Qed.

Lemma walk_total ps size recs : ∀ st w,
  ∃ f n, walk L ps size st recs w = (Ok f, advance n w).
Proof.
  induction recs as [|rcd rest IH]; intros st w; simpl.
  { exists (Next st), 0%nat. by rewrite advance_0. }
  unfold bind.
  destruct (check_record_total ps size st rcd w) as (f & n & ->).
  destruct f as [a|st'].
  { by exists (Return a), n. }
  destruct (IH st' (advance n w)) as (f & m & ->).
  rewrite advance_advance. by exists f, (m + n)%nat.
Qed.

(** The commit loop: with at least one key, joining the first key raises
    before any statement is executed. *)
Lemma commit_raises table ks t w :
  ks ≠ [] → commit L table ks t w = (Raise TypeError, w).
Proof. by destruct ks. Qed.

Lemma keys_nonempty (sets : gmap Z (list string)) : sets ≠ ∅ → keys sets ≠ [].
Proof.
  unfold keys. intros Hne Hnil. apply Hne.
  apply fmap_nil_inv in Hnil. by apply map_to_list_empty_iff.
Qed.

(** [apply_throttle] in terms of the loop: the verdict returned inside the
    loop, or the commit step after it. *)
Lemma throttle_records_unfold table ps size recs w :
  throttle_records L table ps size recs w =
    match recs with
    | [] => (Ok (SMTP_ACTIONS L "default"), w)
    | _ =>
        match walk L ps size initial_state recs w with
        | (Ok (Return action), w') => (Ok action, w')
        | (Ok (Next st), w') =>
            if bool_decide (ps = "END-OF-MESSAGE") && bool_decide (sql_update_sets st ≠ ∅)
            then (Raise TypeError, w')
            else (Ok (SMTP_ACTIONS L "default"), w')
        | (Raise e, w') => (Raise e, w')
        end
    end.
Proof.
  unfold throttle_records.
  destruct recs as [|r recs]; [reflexivity|].
  unfold bind at 1.
  destruct (walk L ps size initial_state (r :: recs) _) as [[[a|st]|e] w']; try reflexivity.
  unfold bind, ret.
  destruct (bool_decide (ps = "END-OF-MESSAGE")); simpl; [|reflexivity].
  case_bool_decide as Hne; simpl; [|reflexivity].
  by rewrite commit_raises by by apply keys_nonempty.
Qed.

Lemma apply_throttle_records user client ps size sender w :
  apply_throttle L user client ps size sender w =
    throttle_records L (sql_table sender) ps size (matching L user client sender w)
      (queried L user client sender w).
Proof. reflexivity. Qed.

Lemma apply_throttle_unfold user client ps size sender w :
  apply_throttle L user client ps size sender w =
    match matching L user client sender w with
    | [] => (Ok (SMTP_ACTIONS L "default"), queried L user client sender w)
    | recs =>
        match walk L ps size initial_state recs (queried L user client sender w) with
        | (Ok (Return action), w') => (Ok action, w')
        | (Ok (Next st), w') =>
            if bool_decide (ps = "END-OF-MESSAGE") && bool_decide (sql_update_sets st ≠ ∅)
            then (Raise TypeError, w')
            else (Ok (SMTP_ACTIONS L "default"), w')
        | (Raise e, w') => (Raise e, w')
        end
    end.
Proof.
  rewrite apply_throttle_records, throttle_records_unfold.
  by destruct (matching L user client sender w).
Qed.

Lemma apply_throttle_walk user client ps size sender w :
  matching L user client sender w ≠ [] →
  apply_throttle L user client ps size sender w =
    match walk L ps size initial_state (matching L user client sender w)
            (queried L user client sender w) with
    | (Ok (Return action), w') => (Ok action, w')
    | (Ok (Next st), w') =>
        if bool_decide (ps = "END-OF-MESSAGE") && bool_decide (sql_update_sets st ≠ ∅)
        then (Raise TypeError, w')
        else (Ok (SMTP_ACTIONS L "default"), w')
    | (Raise e, w') => (Raise e, w')
    end.
Proof.
  intros Hne. rewrite apply_throttle_unfold.
  by destruct (matching L user client sender w).
Qed.

(** Whatever the verdict, [apply_throttle] executes the lookup and no other
    statement, and leaves the database as it was. *)
Lemma apply_throttle_frame user client ps size sender w :
  ∃ r n, apply_throttle L user client ps size sender w
         = (r, advance n (queried L user client sender w)).
Proof.
  rewrite apply_throttle_unfold.
  destruct (matching L user client sender w) as [|r0 recs].
  { eexists _, 0%nat. by rewrite advance_0. }
  destruct (walk_total ps size (r0 :: recs) initial_state (queried L user client sender w))
    as (f & n & ->).
  destruct f as [a|st]; [by eexists _, n|].
  destruct (_ && _); by eexists _, n.
Qed.

(** Every iteration that does not return records the id of its record as a
    key of the dictionary. *)
Lemma check_record_keys ps size st rcd w st' w' :
  check_record L ps size st rcd w = (Ok (Next st'), w') →
  dom (sql_update_sets st') = {[t_id rcd]} ∪ dom (sql_update_sets st)
  ∧ t_id_var st' = Some (t_id rcd).
Proof.
  unfold check_record. case_bool_decide; [by inversion 1|].
  unfold bind at 1. rewrite time_time_advance.
  destruct (tracking _ rcd) as [[expired cm] cq]. unfold check_limits.
  destruct (bool_decide (ps = "RCPT") && continue_check_max_msgs st).
  { destruct (continue_check_max_msgs st);
      [destruct (bool_decide (max_msgs rcd > 0) && bool_decide (cm >= max_msgs rcd))|];
      inversion 1; simpl; by rewrite dom_insert_L. }
  destruct (bool_decide (ps = "END-OF-MESSAGE") && _).
  2: { inversion 1; simpl; by rewrite dom_insert_L. }
  destruct (check_msg_size _ _ _ _ _) as [a|[c1 s1]] eqn:H1; [by inversion 1|].
  destruct (check_max_quota _ _ _ _ _ _) as [a|[c2 s2]] eqn:H2; [by inversion 1|].
  unfold bind.
  destruct (stage_tracking_total size rcd expired s2 (advance 1 w)) as (s3 & -> & Hd).
  inversion 1; simpl.
  apply check_msg_size_dom in H1. apply check_max_quota_dom in H2.
  by rewrite Hd, H2, H1, dom_insert_L.
Qed.

Lemma walk_keys ps size recs : ∀ st w st' w',
  walk L ps size st recs w = (Ok (Next st'), w') →
  dom (sql_update_sets st') = list_to_set (t_id <$> recs) ∪ dom (sql_update_sets st)
  ∧ t_id_var st' = match last recs with
                   | Some rcd => Some (t_id rcd)
                   | None => t_id_var st
                   end.
Proof.
  induction recs as [|rcd rest IH]; intros st w st' w'; simpl.
  { intros [= <- <-]. split; [by rewrite (left_id_L ∅ (∪))|done]. }
  unfold bind.
  destruct (check_record L ps size st rcd w) as [[[a|st1]|e] w1] eqn:Hc; [done| |done].
  intros Hw. apply check_record_keys in Hc as [Hd Ht].
  apply IH in Hw as [Hd' Ht']. split.
  - rewrite Hd', Hd, !(assoc_L (∪)). f_equal. apply (comm_L (∪)).
  - rewrite Ht'. destruct rest as [|r2 rest']; simpl; [congruence|].
    change (match rest' with [] => Some r2 | _ :: _ => last rest' end)
      with (last (r2 :: rest')).
    destruct (last (r2 :: rest')) eqn:E; [done|]. by apply last_None in E.
Qed.

End Frame.

(** Proof steps shared by the lemmas on one iteration. *)
Ltac run_staging :=
  unfold bind;
  repeat match goal with
  | |- context [stage_tracking ?size ?rcd ?expired ?sets ?w] =>
      let Hd := fresh "Hstaged" in
      destruct (stage_tracking_total size rcd expired sets w) as (? & -> & Hd)
  end.

Ltac split_checks :=
  unfold check_msg_size, check_max_quota; simpl;
  repeat (case_bool_decide; simpl; try done; try lia).

(** ** The loop, in the RCPT phase and over a list in two parts *)

(** In the RCPT phase a [return] inside the loop carries the pass-through
    (a record without period) or the max-messages rejection. *)
Lemma check_record_rcpt_verdict {database : Type} (L : Libs database)
    (size : Z) (st : loop_state) (rcd : row) (w w' : world database) (action : string) :
  check_record L "RCPT" size st rcd w = (Ok (Return action), w') →
  action = SMTP_ACTIONS L "default" ∨ action = SMTP_ACTIONS L "reject_exceed_max_msgs".
Proof.
  unfold check_record. case_bool_decide; [intros [= <- _]; by left|].
  unfold bind at 1. rewrite time_time_advance.
  destruct (tracking _ rcd) as [[expired cm] cq]. unfold check_limits.
  rewrite bool_decide_eq_true_2 by done. simpl.
  destruct (continue_check_max_msgs st); [|done].
  destruct (bool_decide (max_msgs rcd > 0) && bool_decide (cm >= max_msgs rcd)); [|done].
  intros [= <- _]. by right.
Qed.

Lemma walk_rcpt_verdict {database : Type} (L : Libs database) (size : Z) (recs : list row) :
  ∀ (st : loop_state) (w w' : world database) (action : string),
  walk L "RCPT" size st recs w = (Ok (Return action), w') →
  action = SMTP_ACTIONS L "default" ∨ action = SMTP_ACTIONS L "reject_exceed_max_msgs".
Proof.
  induction recs as [|rcd rest IH]; intros st w w' action; simpl; [done|].
  unfold bind.
  destruct (check_record L "RCPT" size st rcd w) as [[[a|st1]|e] w1] eqn:Hc; [|by eauto|done].
  intros [= <- _]. by eapply check_record_rcpt_verdict.
Qed.

Lemma walk_app {database : Type} (L : Libs database) (ps : string) (size : Z)
    (pre post : list row) :
  ∀ (st : loop_state) (w : world database),
  walk L ps size st (pre ++ post) w =
    match walk L ps size st pre w with
    | (Ok (Next st'), w') => walk L ps size st' post w'
    | other => other
    end.
Proof.
  induction pre as [|rcd pre IH]; intros st w; simpl; [done|].
  unfold bind.
  destruct (check_record L ps size st rcd w) as [[[a|st1]|e] w1]; [done| |done].
  apply IH.
Qed.

Lemma walk_period_zero {database : Type} (L : Libs database) (ps : string) (size : Z)
    (st : loop_state) (rcd : row) (rest : list row) (w : world database) :
  period rcd = 0 →
  walk L ps size st (rcd :: rest) w = (Ok (Return (SMTP_ACTIONS L "default")), w).
Proof.
  intros Hp. simpl. unfold bind, check_record.
  by rewrite bool_decide_eq_true_2.
Qed.

(** ** The continue flags: which records a dimension consults *)

(** The checks of the phase of [d]: the flag of [d] stays up exactly when it
    was up and the record's limit for [d] is negative. *)
Lemma check_limits_flag {database : Type} (L : Libs database) (d : dimension)
    (size : Z) (st st1 : loop_state) (sets : gmap Z (list string)) (rcd : row)
    (expired : bool) (cm cq : Z) (w w1 : world database) :
  check_limits L (phase_of d) size st sets rcd expired cm cq w = (Ok (Next st1), w1) →
  continue_check d st1 = continue_check d st && bool_decide (limit d rcd < 0).
Proof.
  destruct st as [cs cmm cmq sets0 t]. unfold check_limits.
  destruct d, cs, cmm, cmq; simpl; split_checks;
    try run_staging; intros [= <- _]; simpl; try done;
    repeat (case_bool_decide; try done; try lia).
Qed.

Lemma check_record_flag {database : Type} (L : Libs database) (d : dimension)
    (size : Z) (st st1 : loop_state) (rcd : row) (w w1 : world database) :
  check_record L (phase_of d) size st rcd w = (Ok (Next st1), w1) →
  continue_check d st1 = continue_check d st && bool_decide (limit d rcd < 0).
Proof.
  unfold check_record. case_bool_decide; [done|].
  unfold bind at 1. rewrite time_time_advance.
  destruct (tracking _ rcd) as [[expired cm] cq]. apply check_limits_flag.
Qed.

Lemma walk_flag {database : Type} (L : Libs database) (d : dimension) (size : Z)
    (recs : list row) :
  ∀ (st st1 : loop_state) (w w1 : world database),
  walk L (phase_of d) size st recs w = (Ok (Next st1), w1) →
  continue_check d st1
  = continue_check d st && bool_decide (Forall (λ rcd, limit d rcd < 0) recs).
Proof.
  induction recs as [|rcd rest IH]; intros st st1 w w1 Hw; simpl in Hw.
  { injection Hw as <- _.
    rewrite bool_decide_eq_true_2 by constructor. by rewrite andb_true_r. }
  unfold bind in Hw.
  destruct (check_record L (phase_of d) size st rcd w) as [[[a|st2]|e] w2] eqn:Hc;
    [done| |done].
  apply IH in Hw. apply check_record_flag in Hc.
  rewrite Hw, Hc, <- andb_assoc. f_equal.
  rewrite <- bool_decide_and. apply bool_decide_ext. by rewrite Forall_cons.
Qed.







(** ** The message size check *)

(** What an END-OF-MESSAGE iteration can return: the pass-through of a
    record without period, the quota rejection, or the size rejection, the
    last one only while msg_size is still looked for and on a positive limit
    below the size. *)
Lemma check_record_eom_return {database : Type} (L : Libs database) (size : Z)
    (st : loop_state) (rcd : row) (w w1 : world database) (action : string) :
  check_record L "END-OF-MESSAGE" size st rcd w = (Ok (Return action), w1) →
  action = SMTP_ACTIONS L "default"
  ∨ action = SMTP_ACTIONS L "reject_exceed_max_quota"
  ∨ (action = SMTP_ACTIONS L "reject_exceed_msg_size"
     ∧ continue_check_msg_size st = true ∧ 0 < msg_size rcd < size).
Proof.
  unfold check_record. case_bool_decide; [intros [= <- _]; by left|].
  unfold bind at 1. rewrite time_time_advance.
  destruct (tracking _ rcd) as [[expired cm] cq]. unfold check_limits.
  destruct st as [cs cmm cmq sets t].
  destruct cs, cmq; simpl; split_checks; try run_staging; intros [= <- _];
    (by right; left) || (right; right; split_and!; [done|done|lia|lia]).
Qed.

Lemma check_record_size_flag {database : Type} (L : Libs database) (size : Z)
    (st st1 : loop_state) (rcd : row) (w w1 : world database) :
  check_record L "END-OF-MESSAGE" size st rcd w = (Ok (Next st1), w1) →
  continue_check_msg_size st1
  = continue_check_msg_size st && bool_decide (msg_size rcd < 0).
Proof. apply (check_record_flag L MsgSize). Qed.

Lemma walk_eom_size_settled {database : Type} (L : Libs database) (size : Z)
    (recs : list row) :
  ∀ (st : loop_state) (w w1 : world database) (action : string),
  continue_check_msg_size st = false →
  walk L "END-OF-MESSAGE" size st recs w = (Ok (Return action), w1) →
  action = SMTP_ACTIONS L "default" ∨ action = SMTP_ACTIONS L "reject_exceed_max_quota".
Proof.
  induction recs as [|rcd rest IH]; intros st w w1 action Hflag Hw; simpl in Hw; [done|].
  unfold bind in Hw.
  destruct (check_record L "END-OF-MESSAGE" size st rcd w) as [[[a|st1]|e] w2] eqn:Hc;
    [| |done].
  - injection Hw as <- _.
    apply check_record_eom_return in Hc as [?|[?|(_ & Hup & _)]]; [by left|by right|].
    congruence.
  - eapply IH; [|exact Hw].
    by rewrite (check_record_size_flag L size st st1 rcd w w2 Hc), Hflag.
Qed.

(** A size rejection comes from the first record whose msg_size is not
    negative, and its limit is positive and below the size. *)
Lemma walk_eom_size_rejection {database : Type} (L : Libs database) (size : Z)
    (pre post : list row) (rcd : row) :
  SMTP_ACTIONS L "reject_exceed_msg_size" ≠ SMTP_ACTIONS L "default" →
  SMTP_ACTIONS L "reject_exceed_msg_size" ≠ SMTP_ACTIONS L "reject_exceed_max_quota" →
  Forall (λ r, msg_size r < 0) pre → 0 ≤ msg_size rcd →
  ∀ (st : loop_state) (w w1 : world database),
  walk L "END-OF-MESSAGE" size st (pre ++ rcd :: post) w
    = (Ok (Return (SMTP_ACTIONS L "reject_exceed_msg_size")), w1) →
  0 < msg_size rcd < size.
Proof.
  intros Hd1 Hd2 Hpre Hrcd.
  induction Hpre as [|p pre Hp _ IH]; intros st w w1 Hw; simpl in Hw; unfold bind in Hw.
  - destruct (check_record L "END-OF-MESSAGE" size st rcd w) as [[[a|st1]|e] w2] eqn:Hc;
      [| |done].
    + injection Hw as -> _.
      by apply check_record_eom_return in Hc as [?|[?|(_ & _ & ?)]].
    + apply walk_eom_size_settled in Hw as [?|?]; [done|done|].
      rewrite (check_record_size_flag L size st st1 rcd w w2 Hc).
      rewrite bool_decide_eq_false_2 by lia. apply andb_false_r.
  - destruct (check_record L "END-OF-MESSAGE" size st p w) as [[[a|st1]|e] w2] eqn:Hc;
      [| |done].
    + injection Hw as -> _.
      apply check_record_eom_return in Hc as [?|[?|(_ & _ & ?)]]; [done|done|lia].
    + by eapply IH.
Qed.

(** ** The settings parser *)

Lemma split_nonempty (c : ascii) (s : string) : Py.split c s ≠ [].
Proof.
  destruct s as [|d s]; simpl; [done|].
  case_bool_decide; [done|]. by destruct (Py.split c s).
Qed.

Lemma split_without_separator (c : ascii) (s : string) :
  Py.contains c s = false → Py.split c s = [s].
Proof.
  induction s as [|d s IH]; simpl; [done|].
  case_bool_decide; simpl; [done|]. intros Hc. by rewrite IH.
Qed.

Lemma split_with_separator (c : ascii) (s : string) :
  Py.contains c s = true → (2 ≤ List.length (Py.split c s))%nat.
Proof.
  induction s as [|d s IH]; simpl; [done|].
  case_bool_decide; simpl.
  - intros _. pose proof (split_nonempty c s). destruct (Py.split c s); simpl; [done|lia].
  - intros Hc. specialize (IH Hc). destruct (Py.split c s); simpl in *; lia.
Qed.

Lemma contains_truthy (c : ascii) (s : string) : Py.contains c s = true → Py.truthy s = true.
Proof. by destruct s. Qed.

Lemma convert_items_kept {database : Type} (L : Libs database) (vi : bool)
    (fragments : list string) :
  Forall (λ fragment, (List.length (Py.split ":" fragment) ≤ 2)%nat) fragments →
  ∀ sd, convert_items L vi (List.filter (Py.contains ":") fragments) sd
        = Ok (foldl (λ sd kv, <[kv.1 := kv.2]> sd) sd (omap (kept_pair L vi) fragments)).
Proof.
  induction 1 as [|fragment rest Hlen _ IH]; intros sd; simpl; [done|].
  destruct (Py.contains ":" fragment) eqn:Hc; simpl.
  - rewrite (contains_truthy _ _ Hc). apply split_with_separator in Hc.
    unfold kept_pair.
    destruct (Py.split ":" fragment) as [|key [|value [|x rest']]]; simpl in *; try lia.
    apply IH.
  - unfold kept_pair. rewrite (split_without_separator _ _ Hc). simpl. apply IH.
Qed.

Lemma foldl_insert_lookup (l : list (string * setting_value)) (key : string) :
  ∀ sd : gmap string setting_value,
  foldl (λ sd kv, <[kv.1 := kv.2]> sd) sd l !! key
  = match last (filter (λ kv, kv.1 = key) l) with
    | Some kv => Some kv.2
    | None => sd !! key
    end.
Proof.
  induction l as [|[k v] l IH]; intros sd; simpl; [done|].
  rewrite IH. rewrite filter_cons. simpl.
  case_decide as Hk.
  - subst k. destruct (filter _ l) as [|kv l'] eqn:Hf; simpl.
    + by rewrite lookup_insert_eq.
    + change (match l' with [] => Some kv | _ :: _ => last l' end) with (last (kv :: l')).
      destruct (last (kv :: l')) eqn:E; [done|]. by apply last_None in E.
  - destruct (last (filter _ l)); [done|]. by rewrite lookup_insert_ne.
Qed.

(** * The claims *)

(** C1. At END-OF-MESSAGE, when the message size check or the accumulated
    quota check rejects, nothing staged is applied: the call executes its
    lookup and no UPDATE, and the database (hence cur_msgs, cur_quota,
    init_time and last_time of every record) is what it was before the call,
    also when records evaluated earlier in the call had staged updates. *)
Theorem eom_reject_applies_nothing {database : Type} (L : Libs database)
    (user client : string) (size : Z) (sender : bool) (w : world database) :
  (apply_throttle L user client "END-OF-MESSAGE" size sender w).1
    = Ok (SMTP_ACTIONS L "reject_exceed_msg_size")
  ∨ (apply_throttle L user client "END-OF-MESSAGE" size sender w).1
    = Ok (SMTP_ACTIONS L "reject_exceed_max_quota") →
  db (apply_throttle L user client "END-OF-MESSAGE" size sender w).2 = db w
  ∧ executed (apply_throttle L user client "END-OF-MESSAGE" size sender w).2
    = (executed w ++ [lookup_sql L user client sender])
  ∧ matching L user client sender
      (apply_throttle L user client "END-OF-MESSAGE" size sender w).2
    = matching L user client sender w.
Proof.
  intros _.
  destruct (apply_throttle_frame L user client "END-OF-MESSAGE" size sender w)
    as (r & n & ->).
  done.
Qed.

(** Two records: the first one passes both checks and stages its updates,
    the second one inherits nothing and rejects on quota. *)
Lemma eom_reject_applies_nothing_witness :
  let w := Sample.at_time 1000
             [Row 1 "u@a.com" 8 360 100 (-1) (-1) 3 0 900 900;
              Row 2 "@a.com" 5 360 100 500 (-1) 7 600 900 900] in
  (apply_throttle Sample.L "u@a.com" "10.0.0.1" "END-OF-MESSAGE" 50 true w).1
    = Ok "REJECT Exceeds quota"
  ∧ db (apply_throttle Sample.L "u@a.com" "10.0.0.1" "END-OF-MESSAGE" 50 true w).2 = db w.
Proof.
  split; [vm_compute; reflexivity|].
  apply (eom_reject_applies_nothing Sample.L "u@a.com" "10.0.0.1" 50 true).
  right. vm_compute. reflexivity.
Defined.

(** C2. A RCPT call, whatever its verdict (pass-through, max-messages
    rejection, or the pass-through of a record without period) and whether or
    not a tracking window is over, executes its lookup and no UPDATE: the
    database is what it was before the call, so no field of any record, and
    in particular no reset of init_time, is persisted. *)
Theorem rcpt_never_mutates {database : Type} (L : Libs database)
    (user client : string) (size : Z) (sender : bool) (w : world database) :
  ((apply_throttle L user client "RCPT" size sender w).1 = Ok (SMTP_ACTIONS L "default")
   ∨ (apply_throttle L user client "RCPT" size sender w).1
     = Ok (SMTP_ACTIONS L "reject_exceed_max_msgs"))
  ∧ db (apply_throttle L user client "RCPT" size sender w).2 = db w
  ∧ executed (apply_throttle L user client "RCPT" size sender w).2
    = (executed w ++ [lookup_sql L user client sender])
  ∧ matching L user client sender (apply_throttle L user client "RCPT" size sender w).2
    = matching L user client sender w.
Proof.
  split.
  - rewrite apply_throttle_unfold.
    destruct (matching L user client sender w) as [|r0 recs]; [by left|].
    destruct (walk L "RCPT" size initial_state (r0 :: recs) _) as [[[a|st]|e] w'] eqn:Hw.
    + apply walk_rcpt_verdict in Hw as [->| ->]; [by left|by right].
    + by left.
    + destruct (walk_total L "RCPT" size (r0 :: recs) initial_state
                  (queried L user client sender w)) as (f & n & Hf).
      congruence.
  - by destruct (apply_throttle_frame L user client "RCPT" size sender w) as (r & n & ->).
Qed.

(** C3 (the code departs from the claim).  The scenario of the claim: one
    matching record with priority 10, period 360, max_msgs 100, max_quota
    4096000000, msg_size 10240000, cur_msgs 99, cur_quota 0 and init_time 100
    seconds before the clock reading of the call, END-OF-MESSAGE with size
    5000.  Both checks pass and the assignments are staged under the record's
    id, but the commit loop joins the dictionary key, an integer: the call
    raises TypeError instead of returning the pass-through, no UPDATE is
    executed, and the lookup still finds the record as it was (cur_msgs 99). *)
Theorem scenario_end_of_message_raises {database : Type} (L : Libs database)
    (user client : string) (sender : bool) (w : world database) (rcd : row) :
  matching L user client sender w = [rcd] →
  priority rcd = 10 → period rcd = 360 →
  max_msgs rcd = 100 → max_quota rcd = 4096000000 → msg_size rcd = 10240000 →
  cur_msgs rcd = 99 → cur_quota rcd = 0 →
  init_time rcd = clock w (ticks w) - 100 →
  (apply_throttle L user client "END-OF-MESSAGE" 5000 sender w).1 = Raise TypeError
  ∧ db (apply_throttle L user client "END-OF-MESSAGE" 5000 sender w).2 = db w
  ∧ executed (apply_throttle L user client "END-OF-MESSAGE" 5000 sender w).2
    = (executed w ++ [lookup_sql L user client sender])
  ∧ matching L user client sender
      (apply_throttle L user client "END-OF-MESSAGE" 5000 sender w).2 = [rcd].
Proof.
  intros Hm Hprio Hper Hmm Hmq Hms Hcm Hcq Hinit.
  assert (Hframe := apply_throttle_frame L user client "END-OF-MESSAGE" 5000 sender w).
  split; [|destruct Hframe as (r & n & ->); by rewrite <- Hm].
  clear Hframe. rewrite apply_throttle_unfold, Hm.
  destruct (walk L "END-OF-MESSAGE" 5000 initial_state [rcd] _) as [[[a|st]|e] w'] eqn:Hw.
  - exfalso. revert Hw. simpl. unfold bind at 1, check_record.
    rewrite bool_decide_eq_false_2 by lia.
    unfold bind at 1. rewrite time_time_advance. unfold tracking.
    replace (clock (queried L user client sender w) (ticks (queried L user client sender w)))
      with (clock w (ticks w)) by done.
    rewrite bool_decide_eq_false_2 by lia. simpl.
    unfold check_limits, check_msg_size, check_max_quota; simpl.
    rewrite !Hms, !Hmq, Hcq. simpl.
    by intros [=].
  - apply walk_keys in Hw as [Hd _].
    rewrite bool_decide_eq_true_2 by done. simpl.
    rewrite bool_decide_eq_true_2; [done|].
    intros He. rewrite He, dom_empty_L in Hd. simpl in Hd.
    assert (t_id rcd ∈ (∅ : gset Z)) as Hin
      by (rewrite Hd; apply elem_of_union_l, elem_of_union_l, elem_of_singleton; done).
    by apply not_elem_of_empty in Hin.
  - destruct (walk_total L "END-OF-MESSAGE" 5000 [rcd] initial_state
                (queried L user client sender w)) as (f & n & Hf).
    congruence.
Qed.

Lemma scenario_end_of_message_raises_witness :
  let rcd := Row 1 "user@domain.com" 10 360 100 4096000000 10240000 99 0 900 900 in
  let w := Sample.at_time 1000 [rcd] in
  (apply_throttle Sample.L "user@domain.com" "10.0.0.1" "END-OF-MESSAGE" 5000 true w).1
    = Raise TypeError
  ∧ matching Sample.L "user@domain.com" "10.0.0.1" true
      (apply_throttle Sample.L "user@domain.com" "10.0.0.1" "END-OF-MESSAGE" 5000 true w).2
    = [rcd].
Proof.
  pose proof (scenario_end_of_message_raises Sample.L "user@domain.com" "10.0.0.1" true
    (Sample.at_time 1000 [Row 1 "user@domain.com" 10 360 100 4096000000 10240000 99 0 900 900])
    (Row 1 "user@domain.com" 10 360 100 4096000000 10240000 99 0 900 900)
    eq_refl eq_refl eq_refl eq_refl eq_refl eq_refl eq_refl eq_refl eq_refl) as (H1 & _ & _ & H4).
  exact (conj H1 H4).
Defined.

(** C4, as stated, fails: a record without period does not silence a record
    of higher priority.  Here the first record (period 360, max_msgs 1,
    cur_msgs 5, window open) rejects at RCPT before the second record, whose
    period is 0, is reached. *)
Lemma period_zero_counterexample :
  let recs := [Row 1 "u@a.com" 8 360 1 (-1) (-1) 5 0 900 900;
               Row 2 "@a.com" 5 0 (-1) (-1) (-1) 0 0 0 0] in
  Exists (λ rcd, period rcd = 0) recs
  ∧ (apply_throttle Sample.L "u@a.com" "10.0.0.1" "RCPT" 0 true
       (Sample.at_time 1000 recs)).1 = Ok "REJECT Exceeds max messages"
  ∧ (apply_throttle Sample.L "u@a.com" "10.0.0.1" "RCPT" 0 true
       (Sample.at_time 1000 recs)).1 ≠ Ok (SMTP_ACTIONS Sample.L "default").
Proof.
  split_and!; [|vm_compute; reflexivity|vm_compute; discriminate].
  apply Exists_cons_tl, Exists_cons_hd. reflexivity.
Qed.

(** C4, amended.  When the matching records contain a record without period,
    the call executes no UPDATE and changes no stored field, and it never
    raises; its verdict is the one returned by a record of higher priority
    than that record, if one returns, and the pass-through otherwise.  When
    the record without period is the one of highest priority the verdict is
    the pass-through. *)
Theorem period_zero_short_circuit {database : Type} (L : Libs database)
    (user client ps : string) (size : Z) (sender : bool) (w : world database)
    (pre post : list row) (r0 : row) :
  matching L user client sender w = pre ++ r0 :: post →
  period r0 = 0 →
  (apply_throttle L user client ps size sender w).1
    = match (walk L ps size initial_state pre (queried L user client sender w)).1 with
      | Ok (Return action) => Ok action
      | _ => Ok (SMTP_ACTIONS L "default")
      end
  ∧ (pre = [] → (apply_throttle L user client ps size sender w).1
                = Ok (SMTP_ACTIONS L "default"))
  ∧ db (apply_throttle L user client ps size sender w).2 = db w
  ∧ executed (apply_throttle L user client ps size sender w).2
    = (executed w ++ [lookup_sql L user client sender])
  ∧ matching L user client sender (apply_throttle L user client ps size sender w).2
    = matching L user client sender w.
Proof.
  intros Hm Hp.
  assert ((apply_throttle L user client ps size sender w).1
    = match (walk L ps size initial_state pre (queried L user client sender w)).1 with
      | Ok (Return action) => Ok action
      | _ => Ok (SMTP_ACTIONS L "default")
      end) as Hv.
  { rewrite apply_throttle_unfold, Hm.
    pose proof (walk_app L ps size pre (r0 :: post) initial_state
                  (queried L user client sender w)) as Happ.
    destruct (walk_total L ps size pre initial_state (queried L user client sender w))
      as (f & n & Hf).
    rewrite Hf in Happ |- *.
    destruct f as [a|st1]; [|rewrite walk_period_zero in Happ by done];
      destruct pre; simpl app in *; cbv beta iota; by rewrite Happ. }
  split; [exact Hv|]. split.
  { intros ->. by rewrite Hv. }
  by destruct (apply_throttle_frame L user client ps size sender w) as (r & n & ->).
Qed.

Lemma period_zero_short_circuit_witness :
  let recs := [Row 1 "u@a.com" 8 360 100 (-1) (-1) 5 0 900 900;
               Row 2 "@a.com" 5 0 10 10 10 50 50 0 0;
               Row 3 "@." 0 360 1 1 1 50 50 900 900] in
  let w := Sample.at_time 1000 recs in
  (apply_throttle Sample.L "u@a.com" "10.0.0.1" "END-OF-MESSAGE" 700 true w).1 = Ok "DUNNO"
  ∧ db (apply_throttle Sample.L "u@a.com" "10.0.0.1" "END-OF-MESSAGE" 700 true w).2 = db w.
Proof.
  pose proof (period_zero_short_circuit Sample.L "u@a.com" "10.0.0.1" "END-OF-MESSAGE" 700 true
    (Sample.at_time 1000 [Row 1 "u@a.com" 8 360 100 (-1) (-1) 5 0 900 900;
                          Row 2 "@a.com" 5 0 10 10 10 50 50 0 0;
                          Row 3 "@." 0 360 1 1 1 50 50 900 900])
    [Row 1 "u@a.com" 8 360 100 (-1) (-1) 5 0 900 900]
    [Row 3 "@." 0 360 1 1 1 50 50 900 900]
    (Row 2 "@a.com" 5 0 10 10 10 50 50 0 0) eq_refl eq_refl) as (H1 & _ & H3 & _).
  split; [|exact H3].
  rewrite H1. vm_compute. reflexivity.
Defined.



(** C6. For a record with init_time T0 and period P: at clock reading T0 + P
    the window is not over and the comparisons use the stored cur_msgs and
    cur_quota; at T0 + P + 1 it is over and they use 0 for both.  Seen from
    the checks: at T0 + P the max-messages check (RCPT) and the quota check
    (END-OF-MESSAGE) reject exactly when the stored counter has reached a
    positive limit, at T0 + P + 1 they do not reject. *)
Theorem window_expiry_boundary {database : Type} (L : Libs database)
    (size T0 P : Z) (rcd : row) :
  init_time rcd = T0 → period rcd = P →
  (tracking (T0 + P) rcd = (false, cur_msgs rcd, cur_quota rcd)
   ∧ tracking (T0 + P + 1) rcd = (true, 0, 0))
  ∧ (P ≠ 0 → 0 < max_msgs rcd →
     ∀ (st : loop_state) (w : world database),
       continue_check_max_msgs st = true →
       (clock w (ticks w) = T0 + P →
        returned (check_record L "RCPT" size st rcd w)
        = if bool_decide (cur_msgs rcd >= max_msgs rcd)
          then Some (SMTP_ACTIONS L "reject_exceed_max_msgs") else None)
       ∧ (clock w (ticks w) = T0 + P + 1 →
          returned (check_record L "RCPT" size st rcd w) = None))
  ∧ (P ≠ 0 → 0 < max_quota rcd →
     ∀ (st : loop_state) (w : world database),
       continue_check_msg_size st = false → continue_check_max_quota st = true →
       (clock w (ticks w) = T0 + P →
        returned (check_record L "END-OF-MESSAGE" size st rcd w)
        = if bool_decide (cur_quota rcd >= max_quota rcd)
          then Some (SMTP_ACTIONS L "reject_exceed_max_quota") else None)
       ∧ (clock w (ticks w) = T0 + P + 1 →
          returned (check_record L "END-OF-MESSAGE" size st rcd w) = None)).
Proof.
  intros HT HP.
  assert (tracking (T0 + P) rcd = (false, cur_msgs rcd, cur_quota rcd)) as Hopen.
  { unfold tracking. rewrite bool_decide_eq_false_2; [done|lia]. }
  assert (tracking (T0 + P + 1) rcd = (true, 0, 0)) as Hover.
  { unfold tracking. rewrite bool_decide_eq_true_2; [done|lia]. }
  split_and!; [done|done| |].
  - intros HP0 Hmax st w Hc.
    split; intros Hnow; unfold returned, check_record;
      rewrite bool_decide_eq_false_2 by congruence;
      unfold bind at 1; rewrite time_time_advance, Hnow;
      rewrite ?Hopen, ?Hover; unfold check_limits; rewrite Hc; simpl;
      rewrite (bool_decide_eq_true_2 (max_msgs rcd > 0)) by lia; simpl.
    + by case_bool_decide.
    + rewrite bool_decide_eq_false_2; [done|lia].
  - intros HP0 Hmax st w Hcs Hcq.
    split; intros Hnow; unfold returned, check_record;
      rewrite bool_decide_eq_false_2 by congruence;
      unfold bind at 1; rewrite time_time_advance, Hnow;
      rewrite ?Hopen, ?Hover; unfold check_limits; rewrite Hcs, Hcq; simpl;
      unfold check_max_quota;
      rewrite (bool_decide_eq_true_2 (max_quota rcd > 0)) by lia.
    + case_bool_decide; [done|]. unfold bind.
      by destruct (stage_tracking_total size rcd false
        (stage (t_id rcd) ("total_quota = total_quota + " +:+ pretty size)
           (<[t_id rcd:=[]]> (sql_update_sets st))) (advance 1 w)) as (s3 & -> & _).
    + rewrite bool_decide_eq_false_2 by lia. unfold bind.
      by destruct (stage_tracking_total size rcd true
        (stage (t_id rcd) ("total_quota = total_quota + " +:+ pretty size)
           (<[t_id rcd:=[]]> (sql_update_sets st))) (advance 1 w)) as (s3 & -> & _).
Qed.

Lemma window_expiry_boundary_witness :
  let rcd := Row 1 "user@domain.com" 10 360 100 4096 (-1) 100 5000 1000 1000 in
  returned (check_record Sample.L "RCPT" 0 initial_state rcd (Sample.at_time 1360 [rcd]))
    = Some "REJECT Exceeds max messages"
  ∧ returned (check_record Sample.L "RCPT" 0 initial_state rcd (Sample.at_time 1361 [rcd]))
    = None.
Proof.
  pose proof (window_expiry_boundary Sample.L 0 1000 360
    (Row 1 "user@domain.com" 10 360 100 4096 (-1) 100 5000 1000 1000) eq_refl eq_refl)
    as (_ & H & _).
  specialize (H ltac:(discriminate) ltac:(reflexivity) initial_state).
  split.
  - exact (proj1 (H (Sample.at_time 1360 _) eq_refl) eq_refl).
  - exact (proj2 (H (Sample.at_time 1361 _) eq_refl) eq_refl).
Defined.

(** C7. The outer decision order of [restriction], for an operation whose
    size attribute converts to a number.  When the sender domain equals the
    recipient domain, or the bypass flag is set and the client is trusted,
    the verdict is the pass-through and the world is untouched: no lookup is
    executed.  Otherwise the sender check runs first on the sender table; a
    verdict that is not a pass-through (does not start with DUNNO) is final
    and the recipient table is never looked up; after a pass-through the
    recipient check runs and decides: its verdict when it is not a
    pass-through, the pass-through otherwise. *)
Theorem restriction_decision_order {database : Type} (L : Libs database)
    (kw : kwargs) (size : Z) (w : world database) :
  session_size L (kw_size kw) = Ok size →
  (kw_sender_domain kw = kw_recipient_domain kw
   ∨ (THROTTLE_BYPASS_MYNETWORKS L = true
      ∧ is_trusted_client L (kw_client_address kw) = true) →
   restriction L kw w = (Ok (SMTP_ACTIONS L "default"), w))
  ∧ (kw_sender_domain kw ≠ kw_recipient_domain kw →
     THROTTLE_BYPASS_MYNETWORKS L && is_trusted_client L (kw_client_address kw) = false →
     restriction L kw w =
       match apply_throttle L (kw_sender kw) (kw_client_address kw)
               (kw_protocol_state kw) size true w with
       | (Ok action, w1) =>
           if Py.startswith "DUNNO" action then
             match apply_throttle L (kw_recipient kw) (kw_client_address kw)
                     (kw_protocol_state kw) size false w1 with
             | (Ok action', w2) =>
                 (Ok (if Py.startswith "DUNNO" action'
                      then SMTP_ACTIONS L "default" else action'), w2)
             | (Raise e, w2) => (Raise e, w2)
             end
           else (Ok action, w1)
       | (Raise e, w1) => (Raise e, w1)
       end)
  ∧ (kw_sender_domain kw ≠ kw_recipient_domain kw →
     THROTTLE_BYPASS_MYNETWORKS L && is_trusted_client L (kw_client_address kw) = false →
     ∀ action,
       (apply_throttle L (kw_sender kw) (kw_client_address kw)
          (kw_protocol_state kw) size true w).1 = Ok action →
       Py.startswith "DUNNO" action = false →
       (restriction L kw w).1 = Ok action
       ∧ executed (restriction L kw w).2
         = executed w ++ [lookup_sql L (kw_sender kw) (kw_client_address kw) true]).
Proof.
  intros Hsize.
  assert (∀ w0 : world database,
            lift (session_size L (kw_size kw)) w0 = (Ok size, w0)) as Hlift.
  { intros w0. unfold lift. by rewrite Hsize. }
  split; [|apply and_wlog_r].
  - intros Hby. unfold restriction, bind at 1. rewrite Hlift.
    destruct Hby as [Heq|[Hflag Htrust]].
    + by rewrite bool_decide_eq_true_2.
    + case_bool_decide; [done|]. by rewrite Hflag, Htrust.
  - intros Hne Hnt. unfold restriction, bind at 1. rewrite Hlift.
    rewrite bool_decide_eq_false_2, Hnt by done.
    unfold bind at 1.
    destruct (apply_throttle L (kw_sender kw) _ _ size true w) as [[action|e] w1]; [|done].
    destruct (Py.startswith "DUNNO" action); simpl; [|done].
    unfold bind.
    destruct (apply_throttle L (kw_recipient kw) _ _ size false w1) as [[action'|e] w2];
      [|done].
    by destruct (Py.startswith "DUNNO" action').
  - intros Heq Hne Hnt action Ha Hnp. rewrite Heq by done.
    destruct (apply_throttle_frame L (kw_sender kw) (kw_client_address kw)
                (kw_protocol_state kw) size true w) as (r & n & Hf).
    rewrite Hf in Ha |- *. simpl in Ha. subst r.
    by rewrite Hnp.
Qed.

Lemma restriction_decision_order_witness :
  let rows := [Row 1 "u@a.com" 8 360 1 (-1) (-1) 5 0 900 900] in
  let w := Sample.at_time 1000 rows in
  restriction Sample.L (Kwargs "u@a.com" "a.com" "v@a.com" "a.com" "10.0.0.1" "RCPT" "1200") w
    = (Ok "DUNNO", w)
  ∧ (restriction Sample.L
       (Kwargs "u@a.com" "a.com" "v@b.org" "b.org" "10.0.0.1" "RCPT" "1200") w).1
    = Ok "REJECT Exceeds max messages".
Proof.
  split.
  - refine (proj1 (restriction_decision_order Sample.L
      (Kwargs "u@a.com" "a.com" "v@a.com" "a.com" "10.0.0.1" "RCPT" "1200") 1200
      (Sample.at_time 1000 [Row 1 "u@a.com" 8 360 1 (-1) (-1) 5 0 900 900]) _) _).
    + vm_compute. reflexivity.
    + left. reflexivity.
  - refine (proj1 (proj2 (proj2 (restriction_decision_order Sample.L
      (Kwargs "u@a.com" "a.com" "v@b.org" "b.org" "10.0.0.1" "RCPT" "1200") 1200
      (Sample.at_time 1000 [Row 1 "u@a.com" 8 360 1 (-1) (-1) 5 0 900 900]) _))
      _ _ "REJECT Exceeds max messages" _ _)).
    + vm_compute. reflexivity.
    + vm_compute. discriminate.
    + reflexivity.
    + vm_compute. reflexivity.
    + reflexivity.
Defined.

(** C8, as stated, fails: a fragment whose value is not an integer is not
    dropped.  [int] raises on it, the bare [except] passes, and the fragment
    is stored with its value as a string. *)
Lemma settings_parser_counterexample :
  convert_throttle_setting_to_dict Sample.L "max_msgs:many;msg_size:5" true
    = Ok (<["msg_size" := VInt 5]> (<["max_msgs" := VStr "many"]> ∅))
  ∧ permissive_dict Sample.L "max_msgs:many;msg_size:5" !! "max_msgs" = None
  ∧ convert_throttle_setting_to_dict Sample.L "max_msgs:many;msg_size:5" true
    ≠ Ok (permissive_dict Sample.L "max_msgs:many;msg_size:5").
Proof.
  split_and!; [vm_compute; reflexivity..|].
  intros H.
  apply (f_equal (λ r : result (gmap string setting_value),
                    match r with Ok sd => sd !! "max_msgs" | Raise _ => None end)) in H.
  vm_compute in H. discriminate.
Qed.

(** A fragment with two colons: the unpacking of [item.split(':')] raises. *)
Lemma settings_parser_raises :
  convert_throttle_setting_to_dict Sample.L "max_msgs:1:2;msg_size:5" true = Raise ValueError.
Proof. vm_compute. reflexivity. Qed.

(** C8, amended.  On a settings string in which no fragment has more than
    one colon the parser does not fail: fragments without a colon are
    dropped, every fragment key:value is kept, with [int(value)] when [int]
    accepts the value and the value as a string otherwise, and for a key that
    occurs several times the last fragment wins. *)
Theorem settings_parser_permissive {database : Type} (L : Libs database)
    (s : string) (value_is_integer : bool) :
  Forall (λ fragment, (List.length (Py.split ":" fragment) ≤ 2)%nat) (Py.split ";" s) →
  ∃ sd, convert_throttle_setting_to_dict L s value_is_integer = Ok sd
        ∧ ∀ key, sd !! key
                 = snd <$> last (filter (λ kv, kv.1 = key)
                                   (omap (kept_pair L value_is_integer) (Py.split ";" s))).
Proof.
  intros Hlen. unfold convert_throttle_setting_to_dict, setting_items.
  destruct s as [|c s]; simpl negb; cbv iota.
  - exists ∅. split; [done|]. intros key. by rewrite lookup_empty.
  - eexists. split; [by apply convert_items_kept|].
    intros key. rewrite foldl_insert_lookup, lookup_empty.
    by destruct (last _).
Qed.

Lemma settings_parser_permissive_witness :
  ∃ sd, convert_throttle_setting_to_dict Sample.L
          "max_msgs:100;max_quota:4096000000;msg_size:10240000;" true = Ok sd
        ∧ sd !! "max_quota" = Some (VInt 4096000000).
Proof.
  destruct (settings_parser_permissive Sample.L
              "max_msgs:100;max_quota:4096000000;msg_size:10240000;" true)
    as (sd & Hsd & Hlookup).
  { vm_compute. repeat constructor. }
  exists sd. split; [exact Hsd|].
  rewrite Hlookup. vm_compute. reflexivity.
Defined.

(** C9, as stated, fails: the size check of the authoritative msg_size
    record is not reached when a record of higher priority ends the call.
    Here the first record defers msg_size and rejects on quota (max_quota 10,
    cur_quota 20, window open); the second one holds the msg_size limit 100.
    With size 500 the verdict is the quota rejection, not the size one. *)
Lemma msg_size_counterexample :
  let r1 := Row 1 "u@a.com" 8 360 (-1) 10 (-1) 0 20 900 900 in
  let r2 := Row 2 "@a.com" 5 360 (-1) (-1) 100 0 0 900 900 in
  Forall (λ rcd, msg_size rcd < 0) [r1] ∧ 0 < msg_size r2 < 500
  ∧ (apply_throttle Sample.L "u@a.com" "10.0.0.1" "END-OF-MESSAGE" 500 true
       (Sample.at_time 1000 [r1; r2])).1 = Ok "REJECT Exceeds quota"
  ∧ (apply_throttle Sample.L "u@a.com" "10.0.0.1" "END-OF-MESSAGE" 500 true
       (Sample.at_time 1000 [r1; r2])).1
    ≠ Ok (SMTP_ACTIONS Sample.L "reject_exceed_msg_size").
Proof.
  split_and!;
    [repeat constructor|done|done|vm_compute; reflexivity|vm_compute; discriminate].
Qed.

(** C9, amended.  At END-OF-MESSAGE, with a positive msg_size limit on the
    authoritative record (the first record of the lookup whose msg_size is
    not negative): the call is rejected with the size verdict only if the
    size is strictly greater than the limit, so a size equal to the limit is
    never rejected by this check; and when no record of higher priority ends
    the call first, a size strictly greater than the limit is rejected with
    the size verdict, before any UPDATE. *)
Theorem msg_size_rejection_strict {database : Type} (L : Libs database)
    (user client : string) (size : Z) (sender : bool) (w : world database)
    (pre post : list row) (rcd : row) :
  matching L user client sender w = pre ++ rcd :: post →
  Forall (λ r, msg_size r < 0) pre → 0 < msg_size rcd →
  (SMTP_ACTIONS L "reject_exceed_msg_size" ≠ SMTP_ACTIONS L "default" →
   SMTP_ACTIONS L "reject_exceed_msg_size" ≠ SMTP_ACTIONS L "reject_exceed_max_quota" →
   (apply_throttle L user client "END-OF-MESSAGE" size sender w).1
     = Ok (SMTP_ACTIONS L "reject_exceed_msg_size") →
   size > msg_size rcd)
  ∧ (∀ (st : loop_state) (w1 : world database),
       walk L "END-OF-MESSAGE" size initial_state pre (queried L user client sender w)
         = (Ok (Next st), w1) →
       period rcd ≠ 0 → size > msg_size rcd →
       (apply_throttle L user client "END-OF-MESSAGE" size sender w).1
         = Ok (SMTP_ACTIONS L "reject_exceed_msg_size")
       ∧ db (apply_throttle L user client "END-OF-MESSAGE" size sender w).2 = db w
       ∧ executed (apply_throttle L user client "END-OF-MESSAGE" size sender w).2
         = executed w ++ [lookup_sql L user client sender]).
Proof.
  intros Hm Hpre Hpos. split.
  - intros Hd1 Hd2. rewrite apply_throttle_walk, Hm by (rewrite Hm; by destruct pre).
    destruct (walk L "END-OF-MESSAGE" size initial_state (pre ++ rcd :: post)
                (queried L user client sender w)) as [[[a|st]|e] w1] eqn:Hw.
    + simpl. intros [= ->]. apply walk_eom_size_rejection in Hw; (done || lia).
    + destruct (_ && _); simpl; (done || congruence).
    + done.
  - intros st w1 Hw Hper Hsize.
    split; [|by destruct (apply_throttle_frame L user client "END-OF-MESSAGE" size sender w)
                   as (r & n & ->)].
    rewrite apply_throttle_walk, Hm by (rewrite Hm; by destruct pre).
    pose proof (walk_app L "END-OF-MESSAGE" size pre (rcd :: post) initial_state
                  (queried L user client sender w)) as Happ.
    rewrite Hw in Happ.
    assert (continue_check_msg_size st = true) as Hflag.
    { change (continue_check MsgSize st = true).
      rewrite (walk_flag L MsgSize size pre _ _ _ _ Hw). simpl.
      by apply bool_decide_eq_true_2. }
    assert (walk L "END-OF-MESSAGE" size st (rcd :: post) w1
            = (Ok (Return (SMTP_ACTIONS L "reject_exceed_msg_size")), advance 1 w1)) as Hr.
    { simpl. unfold bind at 1, check_record.
      rewrite bool_decide_eq_false_2 by done.
      unfold bind at 1. rewrite time_time_advance.
      destruct (tracking _ rcd) as [[expired cm] cq].
      unfold check_limits, check_msg_size. rewrite Hflag. simpl.
      by rewrite !bool_decide_eq_true_2 by lia. }
    rewrite Hr in Happ. by rewrite Happ.
Qed.

Lemma msg_size_rejection_strict_witness :
  let r1 := Row 1 "u@a.com" 8 360 100 (-1) (-1) 0 0 900 900 in
  let r2 := Row 2 "@a.com" 5 360 (-1) (-1) 10240000 0 0 900 900 in
  let w := Sample.at_time 1000 [r1; r2] in
  (apply_throttle Sample.L "u@a.com" "10.0.0.1" "END-OF-MESSAGE" 20000000 true w).1
    = Ok "REJECT Message size too large"
  ∧ ((apply_throttle Sample.L "u@a.com" "10.0.0.1" "END-OF-MESSAGE" 10240000 true w).1
       = Ok "REJECT Message size too large" → 10240000 > 10240000).
Proof.
  intros r1 r2 w. split.
  - refine (proj1 (proj2 (msg_size_rejection_strict Sample.L "u@a.com" "10.0.0.1" 20000000
      true w [r1] [] r2 eq_refl _ _)
      (LoopState true true true
         (<[1 := ["cur_msgs = cur_msgs + 1"; "cur_quota = cur_quota + 20000000";
                  "last_time = 1000"]]> ∅)
         (Some 1))
      (World ([r1; r2], 0%nat) (λ _, 1000) 2
         [lookup_sql Sample.L "u@a.com" "10.0.0.1" true]) _ _ _)).
    + repeat constructor.
    + reflexivity.
    + vm_compute. reflexivity.
    + discriminate.
    + reflexivity.
  - refine (proj1 (msg_size_rejection_strict Sample.L "u@a.com" "10.0.0.1" 10240000
      true w [r1] [] r2 eq_refl _ _) _ _).
    + repeat constructor.
    + reflexivity.
    + discriminate.
    + discriminate.
Defined.



(** * Further properties *)

(** ** What an iteration returns, and why *)

Lemma tracking_cases (now : Z) (rcd : row) (expired : bool) (cm cq : Z) :
  tracking now rcd = (expired, cm, cq) →
  (expired = true ∧ cm = 0 ∧ cq = 0 ∧ now > init_time rcd + period rcd)
  ∨ (expired = false ∧ cm = cur_msgs rcd ∧ cq = cur_quota rcd
     ∧ now ≤ init_time rcd + period rcd).
Proof.
  unfold tracking. case_bool_decide; intros [= <- <- <-]; [left|right]; split_and!; (done || lia).
Qed.

(** A [return] inside the loop is the pass-through of a record without
    period, or the rejection of the phase by a record whose flag is still up,
    whose limit is positive and reached, and (for the counters) whose window
    is open at the reading of the clock. *)
Lemma check_record_return {database : Type} (L : Libs database) (ps : string) (size : Z)
    (st : loop_state) (rcd : row) (w w1 : world database) (action : string) :
  check_record L ps size st rcd w = (Ok (Return action), w1) →
  (period rcd = 0 ∧ action = SMTP_ACTIONS L "default" ∧ w1 = w)
  ∨ (period rcd ≠ 0 ∧ w1 = advance 1 w
     ∧ ∃ d, ps = phase_of d ∧ action = SMTP_ACTIONS L (verdict_key d)
            ∧ continue_check d st = true ∧ 0 < limit d rcd ∧ exceeded d size rcd
            ∧ (d ≠ MsgSize → clock w (ticks w) ≤ init_time rcd + period rcd)).
Proof.
  unfold check_record. case_bool_decide as Hp; [intros [= <- <-]; by left|].
  unfold bind at 1. rewrite time_time_advance.
  destruct (tracking _ rcd) as [[expired cm] cq] eqn:Htr.
  apply tracking_cases in Htr.
  intros Hc. right. split; [done|]. revert Hc.
  destruct st as [cs cmm cmq sets t]. unfold check_limits, ret; simpl.
  destruct (decide (ps = "RCPT")) as [->|Hrcpt].
  - simpl. destruct cmm; simpl; [|done].
    destruct (bool_decide (max_msgs rcd > 0)) eqn:H1; simpl; [|done].
    destruct (bool_decide (cm >= max_msgs rcd)) eqn:H2; simpl; [|done].
    apply bool_decide_eq_true_1 in H1, H2.
    intros [= <- <-]. split; [done|]. exists MaxMsgs. simpl.
    split_and!; try done; lia.
  - rewrite (bool_decide_eq_false_2 (ps = "RCPT")) by done. simpl.
    destruct (decide (ps = "END-OF-MESSAGE")) as [->|Heom].
    2: { rewrite bool_decide_eq_false_2 by done. done. }
    simpl. destruct (cs || cmq) eqn:Hflags; simpl; [|done].
    unfold check_msg_size.
    destruct cs; simpl.
    + destruct (bool_decide (msg_size rcd > 0)) eqn:H1; simpl.
      * destruct (bool_decide (size > msg_size rcd)) eqn:H2; simpl.
        { apply bool_decide_eq_true_1 in H1, H2.
          intros [= <- <-]. split; [done|]. exists MsgSize. simpl.
          split_and!; try done; lia. }
        unfold check_max_quota. destruct cmq; simpl; [|run_staging; done].
        destruct (bool_decide (max_quota rcd > 0)) eqn:H3; simpl; [|run_staging; done].
        destruct (bool_decide (cq >= max_quota rcd)) eqn:H4; simpl; [|run_staging; done].
        apply bool_decide_eq_true_1 in H3, H4.
        intros [= <- <-]. split; [done|]. exists MaxQuota. simpl.
        split_and!; try done; lia.
      * unfold check_max_quota. destruct cmq; simpl; [|run_staging; done].
        destruct (bool_decide (max_quota rcd > 0)) eqn:H3; simpl; [|run_staging; done].
        destruct (bool_decide (cq >= max_quota rcd)) eqn:H4; simpl; [|run_staging; done].
        apply bool_decide_eq_true_1 in H3, H4.
        intros [= <- <-]. split; [done|]. exists MaxQuota. simpl.
        split_and!; try done; lia.
    + unfold check_max_quota. destruct cmq; simpl; [|done].
      destruct (bool_decide (max_quota rcd > 0)) eqn:H3; simpl; [|run_staging; done].
      destruct (bool_decide (cq >= max_quota rcd)) eqn:H4; simpl; [|run_staging; done].
      apply bool_decide_eq_true_1 in H3, H4.
      intros [= <- <-]. split; [done|]. exists MaxQuota. simpl.
      split_and!; try done; lia.
Qed.

(** The record that ends the loop: the records before it are walked
    through, and its own iteration returns. *)
Lemma walk_return {database : Type} (L : Libs database) (ps : string) (size : Z)
    (recs : list row) :
  ∀ (st : loop_state) (w w1 : world database) (action : string),
  walk L ps size st recs w = (Ok (Return action), w1) →
  ∃ pre rcd post st' n,
    recs = pre ++ rcd :: post
    ∧ walk L ps size st pre w = (Ok (Next st'), advance n w)
    ∧ check_record L ps size st' rcd (advance n w) = (Ok (Return action), w1).
Proof.
  induction recs as [|r rest IH]; intros st w w1 action Hw; simpl in Hw; [done|].
  unfold bind in Hw.
  destruct (check_record_total L ps size st r w) as (f & n & Hc). rewrite Hc in Hw.
  destruct f as [a|st1].
  - injection Hw as <- <-. exists [], r, rest, st, 0%nat.
    rewrite advance_0. by split_and!.
  - apply IH in Hw as (pre & rcd & post & st' & m & -> & Hpre & Hret).
    rewrite advance_advance in Hpre, Hret.
    exists (r :: pre), rcd, post, st', (m + n)%nat. split_and!; [done| |done].
    simpl. unfold bind. by rewrite Hc.
Qed.

(** The loop goes through a list only if every record has a period. *)
Lemma walk_next_periods {database : Type} (L : Libs database) (ps : string) (size : Z)
    (recs : list row) :
  ∀ (st st' : loop_state) (w w1 : world database),
  walk L ps size st recs w = (Ok (Next st'), w1) →
  Forall (λ rcd, period rcd ≠ 0) recs.
Proof.
  induction recs as [|r rest IH]; intros st st' w w1 Hw; [constructor|].
  destruct (decide (period r = 0)) as [Hp|Hp].
  { by rewrite walk_period_zero in Hw. }
  simpl in Hw. unfold bind in Hw.
  destruct (check_record L ps size st r w) as [[[a|st1]|e] w2]; [done| |done].
  constructor; [done|]. by eapply IH.
Qed.

Lemma verdicts_distinct {database : Type} (L : Libs database) :
  distinct_verdicts L →
  (∀ d, SMTP_ACTIONS L (verdict_key d) ≠ SMTP_ACTIONS L "default")
  ∧ (∀ d d', SMTP_ACTIONS L (verdict_key d) = SMTP_ACTIONS L (verdict_key d') → d = d').
Proof.
  unfold distinct_verdicts, verdict_keys. simpl.
  rewrite !NoDup_cons, !not_elem_of_cons.
  intros ((H1 & H2 & H3 & _) & (H4 & H5 & _) & (H6 & _) & _).
  split; [intros []; simpl; congruence|].
  intros [] []; simpl; congruence.
Qed.

(** The verdict of [apply_throttle], read back: the pass-through, or the
    verdict returned by the iteration of one record after the loop went
    through the records before it. *)
Lemma apply_throttle_verdict {database : Type} (L : Libs database)
    (user client ps : string) (size : Z) (sender : bool) (w : world database)
    (action : string) :
  (apply_throttle L user client ps size sender w).1 = Ok action →
  action = SMTP_ACTIONS L "default"
  ∨ ∃ pre rcd post st n w1,
      matching L user client sender w = pre ++ rcd :: post
      ∧ walk L ps size initial_state pre (queried L user client sender w)
        = (Ok (Next st), advance n (queried L user client sender w))
      ∧ check_record L ps size st rcd (advance n (queried L user client sender w))
        = (Ok (Return action), w1).
Proof.
  rewrite apply_throttle_unfold.
  destruct (matching L user client sender w) as [|r0 recs] eqn:Hm; [intros [= <-]; by left|].
  destruct (walk L ps size initial_state (r0 :: recs) _) as [[[a|st]|e] w1] eqn:Hw; simpl.
  - intros [= <-]. right.
    apply walk_return in Hw as (pre & rcd & post & st' & n & Heq & Hpre & Hret).
    by exists pre, rcd, post, st', n, w1.
  - destruct (_ && _); [done|]. intros [= <-]. by left.
  - done.
Qed.

Lemma Sample_verdicts_distinct : distinct_verdicts Sample.L.
Proof. apply (bool_decide_unpack _). vm_compute. exact I. Qed.

(** Outside the END-OF-MESSAGE phase the call returns a verdict: the commit
    step, the only place that raises, is not entered. *)
Lemma apply_throttle_returns {database : Type} (L : Libs database)
    (user client ps : string) (size : Z) (sender : bool) (w : world database) :
  ps ≠ "END-OF-MESSAGE" →
  ∃ action, (apply_throttle L user client ps size sender w).1 = Ok action.
Proof.
  intros Hps. rewrite apply_throttle_unfold.
  destruct (matching L user client sender w) as [|r0 recs]; [by eexists|].
  destruct (walk_total L ps size (r0 :: recs) initial_state (queried L user client sender w))
    as (f & n & ->).
  destruct f as [a|st]; [by eexists|].
  rewrite bool_decide_eq_false_2 by done. by eexists.
Qed.

(** ** Verdicts and exceptions of apply_throttle *)

(** X1. The verdict of [apply_throttle] is the pass-through or the rejection
    of a limit checked in the phase of the call: max_msgs at RCPT, msg_size
    or max_quota at END-OF-MESSAGE.  No other reply is ever returned. *)
Theorem apply_throttle_verdict_range {database : Type} (L : Libs database)
    (user client ps : string) (size : Z) (sender : bool) (w : world database)
    (action : string) :
  (apply_throttle L user client ps size sender w).1 = Ok action →
  action = SMTP_ACTIONS L "default"
  ∨ ∃ d, ps = phase_of d ∧ action = SMTP_ACTIONS L (verdict_key d).
Proof.
  intros Ha. apply apply_throttle_verdict in Ha as [->|Hret]; [by left|].
  destruct Hret as (pre & rcd & post & st & n & w1 & _ & _ & Hret).
  apply check_record_return in Hret as [(_ & -> & _)|(_ & _ & d & -> & -> & _)];
    [by left|right; by exists d].
Qed.

Lemma apply_throttle_verdict_range_witness :
  let w := Sample.at_time 1000 [Row 1 "u@a.com" 8 360 1 (-1) (-1) 5 0 900 900] in
  "REJECT Exceeds max messages" = SMTP_ACTIONS Sample.L "default"
  ∨ ∃ d, "RCPT" = phase_of d
         ∧ "REJECT Exceeds max messages" = SMTP_ACTIONS Sample.L (verdict_key d).
Proof.
  apply (apply_throttle_verdict_range Sample.L "u@a.com" "10.0.0.1" "RCPT" 0 true
           (Sample.at_time 1000 [Row 1 "u@a.com" 8 360 1 (-1) (-1) 5 0 900 900])).
  vm_compute. reflexivity.
Defined.

(** X2. Every rejection is justified by the authoritative record.  When the
    four replies are different strings and the call returns the rejection of
    the limit [d], the matching records split at a record with a period whose
    limit for [d] is positive and reached (size above msg_size, stored
    cur_msgs at or above max_msgs, stored cur_quota at or above max_quota);
    every record before it has a period and defers [d] with a negative value;
    and for the two counters the window of the record was still open at some
    reading of the clock. *)
Theorem rejection_is_justified {database : Type} (L : Libs database) (d : dimension)
    (user client : string) (size : Z) (sender : bool) (w : world database) :
  distinct_verdicts L →
  (apply_throttle L user client (phase_of d) size sender w).1
    = Ok (SMTP_ACTIONS L (verdict_key d)) →
  ∃ pre rcd post,
    matching L user client sender w = pre ++ rcd :: post
    ∧ Forall (λ r, period r ≠ 0 ∧ limit d r < 0) pre
    ∧ period rcd ≠ 0 ∧ 0 < limit d rcd ∧ exceeded d size rcd
    ∧ (d ≠ MsgSize → ∃ n, clock w n ≤ init_time rcd + period rcd).
Proof.
  intros Hdist Ha. destruct (verdicts_distinct L Hdist) as [Hdef Hinj].
  apply apply_throttle_verdict in Ha as [Ha|Hret]; [by apply Hdef in Ha|].
  destruct Hret as (pre & rcd & post & st & n & w1 & Hm & Hpre & Hret).
  apply check_record_return in Hret as [(_ & Ha & _)|(Hp & _ & d' & _ & Ha & Hflag & Hret)];
    [by apply Hdef in Ha|].
  apply Hinj in Ha. subst d'. destruct Hret as (Hlim & Hex & Hwin).
  exists pre, rcd, post. split_and!; try done.
  - rewrite (walk_flag L d size pre _ _ _ _ Hpre) in Hflag.
    apply andb_true_iff in Hflag as [_ Hflag].
    apply bool_decide_eq_true_1 in Hflag.
    apply walk_next_periods in Hpre.
    rewrite Forall_forall in Hflag, Hpre |- *. naive_solver.
  - intros Hd. eexists. by apply Hwin.
Qed.

Lemma rejection_is_justified_witness :
  let r1 := Row 1 "u@a.com" 8 360 (-1) (-1) (-1) 0 0 900 900 in
  let r2 := Row 2 "@a.com" 5 360 (-1) 500 (-1) 7 600 900 900 in
  ∃ pre rcd post,
    [r1; r2] = pre ++ rcd :: post ∧ 0 < max_quota rcd ∧ cur_quota rcd >= max_quota rcd.
Proof.
  intros r1 r2.
  destruct (rejection_is_justified Sample.L MaxQuota "u@a.com" "10.0.0.1" 50 true
              (Sample.at_time 1000 [r1; r2]))
    as (pre & rcd & post & Hm & _ & _ & Hlim & Hex & _).
  - apply Sample_verdicts_distinct.
  - vm_compute. reflexivity.
  - by exists pre, rcd, post.
Defined.

(** X3. Counters of a closed window never reject.  If at every reading of
    the clock the window of every matching record is over, a RCPT call
    returns the pass-through, and an END-OF-MESSAGE call that returns a
    verdict returns the pass-through or the size rejection: the stored
    cur_msgs and cur_quota are not compared. *)
Theorem expired_windows_never_reject {database : Type} (L : Libs database)
    (user client : string) (size : Z) (sender : bool) (w : world database) :
  (∀ n, Forall (λ rcd, clock w n > init_time rcd + period rcd)
          (matching L user client sender w)) →
  (apply_throttle L user client "RCPT" size sender w).1 = Ok (SMTP_ACTIONS L "default")
  ∧ ∀ action,
      (apply_throttle L user client "END-OF-MESSAGE" size sender w).1 = Ok action →
      action = SMTP_ACTIONS L "default" ∨ action = SMTP_ACTIONS L "reject_exceed_msg_size".
Proof.
  intros Hover.
  assert (∀ ps action,
    (apply_throttle L user client ps size sender w).1 = Ok action →
    action = SMTP_ACTIONS L "default"
    ∨ (ps = "END-OF-MESSAGE" ∧ action = SMTP_ACTIONS L "reject_exceed_msg_size"))
    as Hall.
  { intros ps action Ha. apply apply_throttle_verdict in Ha as [->|Hret]; [by left|].
    destruct Hret as (pre & rcd & post & st & n & w1 & Hm & _ & Hret).
    apply check_record_return in Hret
      as [(_ & -> & _)|(_ & _ & d & -> & -> & _ & _ & _ & Hwin)]; [by left|].
    destruct d; [by right| |];
      (specialize (Hwin ltac:(done)); simpl in Hwin;
       specialize (Hover (n + ticks w)%nat); rewrite Hm, Forall_app, Forall_cons in Hover;
       destruct Hover as (_ & Hover & _); lia). }
  split.
  - destruct (apply_throttle_returns L user client "RCPT" size sender w) as [a Ha]; [done|].
    rewrite Ha. by destruct (Hall _ _ Ha) as [->|[? _]].
  - intros action Ha. destruct (Hall _ _ Ha) as [?|[_ ?]]; [by left|by right].
Qed.

Lemma expired_windows_never_reject_witness :
  let w := Sample.at_time 5000 [Row 1 "u@a.com" 8 360 1 10 (-1) 5 600 900 900] in
  (apply_throttle Sample.L "u@a.com" "10.0.0.1" "RCPT" 0 true w).1 = Ok "DUNNO".
Proof.
  apply (expired_windows_never_reject Sample.L "u@a.com" "10.0.0.1" 0 true
           (Sample.at_time 5000 [Row 1 "u@a.com" 8 360 1 10 (-1) 5 600 900 900])).
  intros n. repeat constructor.
Defined.

(** X4. Once the lookup has handed over its records, the rest of
    [apply_throttle] (lines 179-311) raises only in the commit step.  An
    exception there is always TypeError, it occurs only at END-OF-MESSAGE,
    with at least one record and no record without period, and by then the
    code has handed no statement to [conn.execute] and has not touched the
    database.  What the lookup statement itself may raise (lines 174-175) is
    not part of this property. *)
Theorem records_raise_only_in_commit {database : Type} (L : Libs database)
    (table ps : string) (size : Z) (recs : list row) (w : world database) (e : exn) :
  (throttle_records L table ps size recs w).1 = Raise e →
  e = TypeError ∧ ps = "END-OF-MESSAGE"
  ∧ recs ≠ []
  ∧ Forall (λ rcd, period rcd ≠ 0) recs
  ∧ db (throttle_records L table ps size recs w).2 = db w
  ∧ executed (throttle_records L table ps size recs w).2 = executed w.
Proof.
  rewrite throttle_records_unfold.
  destruct recs as [|r0 recs]; [done|].
  destruct (walk_total L ps size (r0 :: recs) initial_state w) as (f & n & Hw).
  rewrite Hw. destruct f as [a|st]; [done|].
  apply walk_next_periods in Hw.
  case_bool_decide; simpl; [|done]. destruct (bool_decide _); [|done].
  intros [= <-]. by split_and!.
Qed.

Lemma records_raise_only_in_commit_witness :
  let recs := [Row 1 "u@a.com" 8 360 100 (-1) (-1) 5 0 900 900;
               Row 2 "@a.com" 5 360 (-1) 4096000000 (-1) 0 0 900 900] in
  Forall (λ rcd, period rcd ≠ 0) recs
  ∧ executed (throttle_records Sample.L "throttle_sender" "END-OF-MESSAGE" 50 recs
                (Sample.at_time 1000 recs)).2 = [].
Proof.
  destruct (records_raise_only_in_commit Sample.L "throttle_sender" "END-OF-MESSAGE" 50
              [Row 1 "u@a.com" 8 360 100 (-1) (-1) 5 0 900 900;
               Row 2 "@a.com" 5 360 (-1) 4096000000 (-1) 0 0 900 900]
              (Sample.at_time 1000
                 [Row 1 "u@a.com" 8 360 100 (-1) (-1) 5 0 900 900;
                  Row 2 "@a.com" 5 360 (-1) 4096000000 (-1) 0 0 900 900])
              TypeError) as (_ & _ & _ & Hper & _ & Hex).
  - vm_compute. reflexivity.
  - exact (conj Hper Hex).
Defined.

(** X5. At END-OF-MESSAGE no message is let through by records that all have
    a period: with at least one matching record and no record without period
    the call rejects on size, rejects on quota, or raises TypeError in the
    commit step.  It never returns the pass-through. *)
Theorem eom_passes_only_by_raising {database : Type} (L : Libs database)
    (user client : string) (size : Z) (sender : bool) (w : world database) :
  matching L user client sender w ≠ [] →
  Forall (λ rcd, period rcd ≠ 0) (matching L user client sender w) →
  (apply_throttle L user client "END-OF-MESSAGE" size sender w).1 = Raise TypeError
  ∨ (apply_throttle L user client "END-OF-MESSAGE" size sender w).1
    = Ok (SMTP_ACTIONS L "reject_exceed_msg_size")
  ∨ (apply_throttle L user client "END-OF-MESSAGE" size sender w).1
    = Ok (SMTP_ACTIONS L "reject_exceed_max_quota").
Proof.
  intros Hne Hper. rewrite apply_throttle_walk by done.
  destruct (walk L "END-OF-MESSAGE" size initial_state (matching L user client sender w)
              (queried L user client sender w)) as [[[a|st]|e] w1] eqn:Hw.
  - apply walk_return in Hw as (pre & rcd & post & st' & n & Hm & _ & Hret).
    rewrite Hm, Forall_app, Forall_cons in Hper. destruct Hper as (_ & Hp & _).
    apply check_record_return in Hret as [(? & _)|(_ & _ & d & Hps & -> & _)]; [done|].
    destruct d; [right; by left|done|right; by right].
  - left. apply walk_keys in Hw as [Hd _].
    rewrite bool_decide_eq_true_2 by done. simpl.
    rewrite bool_decide_eq_true_2; [done|].
    intros He. rewrite He, dom_empty_L in Hd.
    destruct (matching L user client sender w) as [|r0 recs]; [done|].
    assert (t_id r0 ∈ (∅ : gset Z)) as Hin
      by (rewrite Hd; apply elem_of_union_l; simpl; apply elem_of_union_l, elem_of_singleton;
          done).
    by apply not_elem_of_empty in Hin.
  - destruct (walk_total L "END-OF-MESSAGE" size (matching L user client sender w)
                initial_state (queried L user client sender w)) as (f & n & Hf).
    congruence.
Qed.

Lemma eom_passes_only_by_raising_witness :
  let w := Sample.at_time 1000 [Row 1 "u@a.com" 8 360 0 0 0 0 0 900 900] in
  (apply_throttle Sample.L "u@a.com" "10.0.0.1" "END-OF-MESSAGE" 1 true w).1 = Raise TypeError
  ∨ (apply_throttle Sample.L "u@a.com" "10.0.0.1" "END-OF-MESSAGE" 1 true w).1
    = Ok "REJECT Message size too large"
  ∨ (apply_throttle Sample.L "u@a.com" "10.0.0.1" "END-OF-MESSAGE" 1 true w).1
    = Ok "REJECT Exceeds quota".
Proof.
  apply (eom_passes_only_by_raising Sample.L "u@a.com" "10.0.0.1" 1 true
           (Sample.at_time 1000 [Row 1 "u@a.com" 8 360 0 0 0 0 0 900 900])).
  - discriminate.
  - repeat constructor. discriminate.
Defined.

(** X6. A protocol state other than RCPT and END-OF-MESSAGE checks nothing:
    whatever the matching records, the call returns the pass-through. *)
Theorem other_phase_passes {database : Type} (L : Libs database)
    (user client ps : string) (size : Z) (sender : bool) (w : world database) :
  ps ≠ "RCPT" → ps ≠ "END-OF-MESSAGE" →
  (apply_throttle L user client ps size sender w).1 = Ok (SMTP_ACTIONS L "default").
Proof.
  intros Hr He.
  destruct (apply_throttle_returns L user client ps size sender w He) as [a Ha].
  rewrite Ha. f_equal.
  apply apply_throttle_verdict in Ha as [->|Hret]; [done|].
  destruct Hret as (pre & rcd & post & st & n & w1 & _ & _ & Hret).
  apply check_record_return in Hret as [(_ & -> & _)|(_ & _ & d & -> & _)]; [done|].
  by destruct d.
Qed.

Lemma other_phase_passes_witness :
  (apply_throttle Sample.L "u@a.com" "10.0.0.1" "DATA" 0 true
     (Sample.at_time 1000 [Row 1 "u@a.com" 8 360 1 1 1 5 5 900 900])).1 = Ok "DUNNO".
Proof.
  apply (other_phase_passes Sample.L "u@a.com" "10.0.0.1" "DATA" 0 true); discriminate.
Defined.

(** ** The decision of the RCPT phase *)

(** Records with a period that defer max_msgs are walked through, one
    reading of the clock each, and leave the flag up. *)
Lemma walk_rcpt_deferred {database : Type} (L : Libs database) (size : Z)
    (pre : list row) :
  Forall (λ r, period r ≠ 0 ∧ max_msgs r < 0) pre →
  ∀ (st : loop_state) (w : world database),
  continue_check_max_msgs st = true →
  ∃ st', walk L "RCPT" size st pre w = (Ok (Next st'), advance (List.length pre) w)
         ∧ continue_check_max_msgs st' = true.
Proof.
  induction 1 as [|r pre [Hp Hm] _ IH]; intros st w Hflag; simpl.
  { exists st. by rewrite advance_0. }
  unfold bind at 1, check_record. rewrite bool_decide_eq_false_2 by done.
  unfold bind at 1. rewrite time_time_advance.
  destruct (tracking _ r) as [[expired cm] cq].
  unfold check_limits, ret. rewrite Hflag. simpl.
  rewrite (bool_decide_eq_false_2 (max_msgs r > 0)) by lia. simpl.
  rewrite (bool_decide_eq_false_2 (max_msgs r >= 0)) by lia.
  edestruct IH as (st' & -> & Hflag'); [|exists st'; split; [|done]]; [done|].
  rewrite advance_advance. do 2 f_equal. lia.
Qed.

(** Once max_msgs is settled, the RCPT loop rejects no more. *)
Lemma walk_rcpt_settled {database : Type} (L : Libs database) (size : Z)
    (recs : list row) :
  ∀ (st : loop_state) (w w1 : world database) (action : string),
  continue_check_max_msgs st = false →
  walk L "RCPT" size st recs w = (Ok (Return action), w1) →
  action = SMTP_ACTIONS L "default".
Proof.
  induction recs as [|r rest IH]; intros st w w1 action Hflag Hw; simpl in Hw; [done|].
  unfold bind in Hw.
  destruct (check_record L "RCPT" size st r w) as [[[a|st1]|e] w2] eqn:Hc; [| |done].
  - injection Hw as <- _.
    apply check_record_return in Hc as [(_ & -> & _)|(_ & _ & d & Hps & _ & Hup & _)];
      [done|].
    destruct d; simplify_eq. simpl in Hup. congruence.
  - eapply IH; [|exact Hw].
    pose proof (check_record_flag L MaxMsgs size st st1 r w w2 Hc) as Hstep.
    simpl in Hstep. by rewrite Hstep, Hflag.
Qed.

(** X7. The decision at RCPT.  When every matching record has a period and
    defers max_msgs, the call returns the pass-through.  When the records
    before the first one with a max_msgs of 0 or more all have a period, and
    that record has one too, the verdict is decided by that record alone, on
    the counter of its window at its own reading of the clock (the reading
    number [length pre] of the call): the rejection when its limit is
    positive and reached, the pass-through otherwise; a limit of 0 never
    rejects. *)
Theorem rcpt_decision {database : Type} (L : Libs database)
    (user client : string) (size : Z) (sender : bool) (w : world database) :
  (Forall (λ r, period r ≠ 0 ∧ max_msgs r < 0) (matching L user client sender w) →
   (apply_throttle L user client "RCPT" size sender w).1 = Ok (SMTP_ACTIONS L "default"))
  ∧ (∀ (pre post : list row) (rcd : row),
       matching L user client sender w = pre ++ rcd :: post →
       Forall (λ r, period r ≠ 0 ∧ max_msgs r < 0) pre →
       period rcd ≠ 0 → 0 ≤ max_msgs rcd →
       (apply_throttle L user client "RCPT" size sender w).1
       = Ok (if bool_decide
                  (0 < max_msgs rcd
                   ∧ (tracking (clock w (List.length pre + ticks w)) rcd).1.2 >= max_msgs rcd)
             then SMTP_ACTIONS L "reject_exceed_max_msgs"
             else SMTP_ACTIONS L "default")).
Proof.
  split.
  - intros Hall. rewrite apply_throttle_unfold.
    destruct (matching L user client sender w) as [|r0 recs]; [done|].
    destruct (walk_rcpt_deferred L size (r0 :: recs) Hall initial_state
                (queried L user client sender w) eq_refl) as (st' & -> & _).
    done.
  - intros pre post rcd Hm Hpre Hp Hlim.
    rewrite apply_throttle_walk, Hm by (rewrite Hm; by destruct pre).
    rewrite walk_app.
    destruct (walk_rcpt_deferred L size pre Hpre initial_state
                (queried L user client sender w) eq_refl) as (st' & -> & Hflag).
    simpl. unfold bind at 1.
    destruct (check_record L "RCPT" size st' rcd _) as [[[a|st1]|e] w1] eqn:Hc.
    + revert Hc. unfold check_record. rewrite bool_decide_eq_false_2 by done.
      unfold bind at 1. rewrite time_time_advance. simpl.
      destruct (tracking _ rcd) as [[expired cm] cq]. simpl.
      unfold check_limits, ret. rewrite Hflag. simpl.
      destruct (bool_decide (max_msgs rcd > 0)) eqn:H1; simpl;
        [destruct (bool_decide (cm >= max_msgs rcd)) eqn:H2; simpl|]; [|done..].
      intros [= <- _]. apply bool_decide_eq_true_1 in H1, H2.
      by rewrite bool_decide_eq_true_2 by (split; lia).
    + assert (continue_check_max_msgs st1 = false) as Hdown.
      { pose proof (check_record_flag L MaxMsgs size st' st1 rcd _ _ Hc) as Hstep.
        simpl in Hstep. rewrite Hstep, bool_decide_eq_false_2 by lia.
        apply andb_false_r. }
      assert (¬ (0 < max_msgs rcd
                 ∧ (tracking (clock w (List.length pre + ticks w)) rcd).1.2 >= max_msgs rcd))
        as Hno.
      { revert Hc. unfold check_record. rewrite bool_decide_eq_false_2 by done.
        unfold bind at 1. rewrite time_time_advance. simpl.
        destruct (tracking _ rcd) as [[expired cm] cq]. simpl.
        unfold check_limits, ret. rewrite Hflag. simpl.
        destruct (bool_decide (max_msgs rcd > 0)) eqn:H1; simpl;
          [destruct (bool_decide (cm >= max_msgs rcd)) eqn:H2; simpl|]; [done|..].
        - apply bool_decide_eq_false_1 in H2. intros _ [_ ?]. lia.
        - apply bool_decide_eq_false_1 in H1. intros _ [? _]. lia. }
      rewrite (bool_decide_eq_false_2 _ Hno).
      destruct (walk L "RCPT" size st1 post w1) as [[[a|st2]|e] w2] eqn:Hw.
      * by rewrite (walk_rcpt_settled L size post st1 w1 w2 a Hdown Hw).
      * done.
      * destruct (walk_total L "RCPT" size post st1 w1) as (f & n & Hf). congruence.
    + destruct (check_record_total L "RCPT" size st' rcd
                  (advance (List.length pre) (queried L user client sender w)))
        as (f & n & Hf). congruence.
Qed.

Lemma rcpt_decision_witness :
  let r1 := Row 1 "u@a.com" 8 360 (-1) (-1) (-1) 0 0 900 900 in
  let r2 := Row 2 "@a.com" 5 360 100 (-1) (-1) 100 0 900 900 in
  let r3 := Row 3 "@." 0 360 1000 (-1) (-1) 0 0 900 900 in
  (apply_throttle Sample.L "u@a.com" "10.0.0.1" "RCPT" 0 true
     (Sample.at_time 1000 [r1; r2; r3])).1 = Ok "REJECT Exceeds max messages".
Proof.
  intros r1 r2 r3.
  apply (proj2 (rcpt_decision Sample.L "u@a.com" "10.0.0.1" 0 true
                  (Sample.at_time 1000 [r1; r2; r3])) [r1] [r3] r2).
  - reflexivity.
  - repeat constructor; discriminate.
  - discriminate.
  - discriminate.
Defined.

(** ** What each phase reads *)

Lemma walk_ext {database : Type} (L : Libs database) (ps : string) (size size' : Z)
    (R : row → row → Prop) (recs recs' : list row) :
  (∀ st (w : world database) r r', R r r' →
     check_record L ps size st r w = check_record L ps size' st r' w) →
  Forall2 R recs recs' →
  ∀ st (w : world database),
  walk L ps size st recs w = walk L ps size' st recs' w.
Proof.
  intros Hstep. induction 1 as [|r r' rest rest' Hr _ IH]; intros st w; simpl; [done|].
  unfold bind. rewrite (Hstep st w r r' Hr).
  destruct (check_record L ps size' st r' w) as [[[a|st1]|e] w1]; [done| |done].
  apply IH.
Qed.

Lemma check_record_rcpt_reads {database : Type} (L : Libs database) (size size' : Z)
    (st : loop_state) (w : world database) (r r' : row) :
  same_for_rcpt r r' →
  check_record L "RCPT" size st r w = check_record L "RCPT" size' st r' w.
Proof.
  intros (Hid & Hp & Hm & Hc & Hi). unfold check_record, check_limits, tracking.
  rewrite Hid, Hp, Hm, Hc, Hi. case_bool_decide; [done|].
  unfold bind. rewrite !time_time_advance.
  case_bool_decide; simpl; by destruct (continue_check_max_msgs st).
Qed.

Lemma check_record_eom_reads {database : Type} (L : Libs database) (size : Z)
    (st : loop_state) (w : world database) (r r' : row) :
  same_for_eom r r' →
  check_record L "END-OF-MESSAGE" size st r w = check_record L "END-OF-MESSAGE" size st r' w.
Proof.
  intros (Hid & Hp & Hm & Hq & Hs & Hc & Hi).
  unfold check_record, check_limits, check_msg_size, check_max_quota, stage_tracking,
    tracking.
  rewrite Hid, Hp, Hm, Hq, Hs, Hc, Hi. case_bool_decide; [done|].
  unfold bind at 1 6. rewrite !time_time_advance.
  by case_bool_decide.
Qed.

(** X8. The RCPT phase reads, of each record, the id, the period, max_msgs,
    cur_msgs and init_time, and nothing else: two lists of records that agree
    on these columns give the same verdict and leave the same world, whatever
    the message size, the table, and the other columns (msg_size, max_quota,
    cur_quota, priority, user, last_time) are. *)
Theorem rcpt_reads_only_message_counters {database : Type} (L : Libs database)
    (table table' : string) (size size' : Z) (recs recs' : list row)
    (w : world database) :
  Forall2 same_for_rcpt recs recs' →
  throttle_records L table "RCPT" size recs w
  = throttle_records L table' "RCPT" size' recs' w.
Proof.
  intros Hsame. rewrite !throttle_records_unfold.
  rewrite (walk_ext L "RCPT" size size' same_for_rcpt recs recs'
             (check_record_rcpt_reads L size size') Hsame).
  by destruct Hsame.
Qed.

Lemma rcpt_reads_only_message_counters_witness :
  throttle_records Sample.L "throttle_sender" "RCPT" 0
    [Row 1 "u@a.com" 8 360 1 (-1) (-1) 5 0 900 900]
    (Sample.at_time 1000 [])
  = throttle_records Sample.L "throttle_rcpt" "RCPT" 99999
      [Row 1 "@a.com" 5 360 1 1 1 5 7000 900 0]
      (Sample.at_time 1000 []).
Proof.
  apply rcpt_reads_only_message_counters. repeat constructor.
Defined.

(** X9. The END-OF-MESSAGE phase never reads cur_msgs, priority, user or
    last_time: two lists of records that agree on the other columns give the
    same verdict or exception and leave the same world. *)
Theorem eom_never_reads_cur_msgs {database : Type} (L : Libs database)
    (table : string) (size : Z) (recs recs' : list row) (w : world database) :
  Forall2 same_for_eom recs recs' →
  throttle_records L table "END-OF-MESSAGE" size recs w
  = throttle_records L table "END-OF-MESSAGE" size recs' w.
Proof.
  intros Hsame. rewrite !throttle_records_unfold.
  rewrite (walk_ext L "END-OF-MESSAGE" size size same_for_eom recs recs'
             (check_record_eom_reads L size) Hsame).
  by destruct Hsame.
Qed.

Lemma eom_never_reads_cur_msgs_witness :
  throttle_records Sample.L "throttle_sender" "END-OF-MESSAGE" 700
    [Row 1 "u@a.com" 8 360 1 (-1) 500 5 0 900 900]
    (Sample.at_time 1000 [])
  = throttle_records Sample.L "throttle_sender" "END-OF-MESSAGE" 700
      [Row 1 "@a.com" 5 360 1 (-1) 500 0 0 900 0]
      (Sample.at_time 1000 []).
Proof.
  apply eom_never_reads_cur_msgs. repeat constructor.
Defined.

(** ** restriction as a whole *)

(** [restriction] after the conversion of the size, when neither bypass
    applies. *)
Lemma restriction_checks {database : Type} (L : Libs database) (kw : kwargs) (size : Z)
    (w : world database) :
  session_size L (kw_size kw) = Ok size →
  kw_sender_domain kw ≠ kw_recipient_domain kw →
  THROTTLE_BYPASS_MYNETWORKS L && is_trusted_client L (kw_client_address kw) = false →
  restriction L kw w =
    match apply_throttle L (kw_sender kw) (kw_client_address kw)
            (kw_protocol_state kw) size true w with
    | (Ok action, w1) =>
        if Py.startswith "DUNNO" action then
          match apply_throttle L (kw_recipient kw) (kw_client_address kw)
                  (kw_protocol_state kw) size false w1 with
          | (Ok action', w2) =>
              (Ok (if Py.startswith "DUNNO" action'
                   then SMTP_ACTIONS L "default" else action'), w2)
          | (Raise e, w2) => (Raise e, w2)
          end
        else (Ok action, w1)
    | (Raise e, w1) => (Raise e, w1)
    end.
Proof.
  intros Hsize Hne Hnt. unfold restriction, bind at 1, lift. rewrite Hsize.
  rewrite bool_decide_eq_false_2, Hnt by done.
  unfold bind at 1.
  destruct (apply_throttle L (kw_sender kw) _ _ size true w) as [[action|e] w1]; [|done].
  destruct (Py.startswith "DUNNO" action); simpl; [|done].
  unfold bind.
  destruct (apply_throttle L (kw_recipient kw) _ _ size false w1) as [[action'|e] w2];
    [|done].
  by destruct (Py.startswith "DUNNO" action').
Qed.

(** The three ways [restriction] can go before any lookup. *)
Lemma restriction_cases {database : Type} (L : Libs database) (kw : kwargs)
    (w : world database) :
  (Py.truthy (kw_size kw) = true ∧ py_int L (kw_size kw) = None
   ∧ restriction L kw w = (Raise ValueError, w))
  ∨ (∃ size, session_size L (kw_size kw) = Ok size
     ∧ ((kw_sender_domain kw = kw_recipient_domain kw
         ∨ THROTTLE_BYPASS_MYNETWORKS L && is_trusted_client L (kw_client_address kw) = true)
        ∧ restriction L kw w = (Ok (SMTP_ACTIONS L "default"), w)
        ∨ kw_sender_domain kw ≠ kw_recipient_domain kw
          ∧ THROTTLE_BYPASS_MYNETWORKS L && is_trusted_client L (kw_client_address kw)
            = false)).
Proof.
  unfold restriction, bind at 1, lift, session_size.
  destruct (Py.truthy (kw_size kw)) eqn:Ht;
    [destruct (py_int L (kw_size kw)) as [n|] eqn:Hi|]; [|by left|];
    right; eexists; (split; [done|]);
    (case_bool_decide as Hd; [left; split; [by left|done]|]);
    (destruct (_ && _) eqn:Hb; [left; split; [by right|done]|by right]).
Qed.

(** X10. [restriction] never changes the database, and it executes at most
    two statements, both lookups: none, the sender lookup alone, or the
    sender lookup followed by the recipient lookup. *)
Theorem restriction_only_looks_up {database : Type} (L : Libs database) (kw : kwargs)
    (w : world database) :
  db (restriction L kw w).2 = db w
  ∧ (executed (restriction L kw w).2 = executed w
     ∨ executed (restriction L kw w).2
       = executed w ++ [lookup_sql L (kw_sender kw) (kw_client_address kw) true]
     ∨ executed (restriction L kw w).2
       = executed w ++ [lookup_sql L (kw_sender kw) (kw_client_address kw) true;
                        lookup_sql L (kw_recipient kw) (kw_client_address kw) false]).
Proof.
  destruct (restriction_cases L kw w)
    as [(_ & _ & ->)|(size & Hsize & [(_ & ->)|(Hne & Hnt)])]; [by split; [|left]..|].
  rewrite (restriction_checks L kw size w Hsize Hne Hnt).
  destruct (apply_throttle_frame L (kw_sender kw) (kw_client_address kw)
              (kw_protocol_state kw) size true w) as (r & n & ->).
  destruct r as [action|e]; [|by split; [|right; left]].
  destruct (Py.startswith "DUNNO" action); [|by split; [|right; left]].
  destruct (apply_throttle_frame L (kw_recipient kw) (kw_client_address kw)
              (kw_protocol_state kw) size false
              (advance n (queried L (kw_sender kw) (kw_client_address kw) true w)))
    as (r' & m & ->).
  assert (∀ x, (executed w ++ [lookup_sql L (kw_sender kw) (kw_client_address kw) true])
               ++ [x]
               = executed w ++ [lookup_sql L (kw_sender kw) (kw_client_address kw) true; x])
    as Happ by (intros x; by rewrite <- app_assoc).
  destruct r' as [action'|e]; simpl; (split; [done|]); right; right; apply Happ.
Qed.

(** X11. [restriction] converts the size before anything else.  A size
    attribute that is not empty and that [int] rejects raises ValueError
    before any bypass test, also for mail within one domain or from a trusted
    client, and leaves the world untouched.  For mail within one domain this
    is the only way the call can fail: no other step is reached that can
    raise, and when the call does not raise it returns the pass-through
    without any lookup. *)
Theorem restriction_converts_size_first {database : Type} (L : Libs database)
    (kw : kwargs) (w : world database) :
  (Py.truthy (kw_size kw) = true → py_int L (kw_size kw) = None →
   restriction L kw w = (Raise ValueError, w))
  ∧ (kw_sender_domain kw = kw_recipient_domain kw →
     (∀ e, (restriction L kw w).1 = Raise e →
        e = ValueError ∧ Py.truthy (kw_size kw) = true ∧ py_int L (kw_size kw) = None)
     ∧ (∀ action, (restriction L kw w).1 = Ok action →
          restriction L kw w = (Ok (SMTP_ACTIONS L "default"), w))).
Proof.
  split.
  - intros Ht Hi. unfold restriction, bind at 1, lift, session_size. by rewrite Ht, Hi.
  - intros Hdom.
    destruct (restriction_cases L kw w)
      as [(Ht & Hi & ->)|(size & Hsize & [(_ & ->)|(Hne & _)])]; [| |done].
    + split; [by intros e [= <-]|done].
    + split; [done|by intros action _].
Qed.

Lemma restriction_converts_size_first_witness :
  restriction Sample.L
    (Kwargs "u@a.com" "a.com" "v@a.com" "a.com" "10.0.0.1" "RCPT" "12k")
    (Sample.at_time 1000 [])
  = (Raise ValueError, Sample.at_time 1000 []).
Proof.
  apply (proj1 (restriction_converts_size_first Sample.L
           (Kwargs "u@a.com" "a.com" "v@a.com" "a.com" "10.0.0.1" "RCPT" "12k")
           (Sample.at_time 1000 []))); reflexivity.
Defined.

(** X12. The verdict of [restriction] is the pass-through or the rejection of
    a limit checked in the phase of the call, as for [apply_throttle]. *)
Theorem restriction_verdict_range {database : Type} (L : Libs database) (kw : kwargs)
    (w : world database) (action : string) :
  (restriction L kw w).1 = Ok action →
  action = SMTP_ACTIONS L "default"
  ∨ ∃ d, kw_protocol_state kw = phase_of d ∧ action = SMTP_ACTIONS L (verdict_key d).
Proof.
  assert (∀ user sender size (w0 : world database) a,
    (apply_throttle L user (kw_client_address kw) (kw_protocol_state kw) size sender w0).1
      = Ok a →
    a = SMTP_ACTIONS L "default"
    ∨ ∃ d, kw_protocol_state kw = phase_of d ∧ a = SMTP_ACTIONS L (verdict_key d)) as Hone.
  { intros user sender size w0 a Ha.
    apply apply_throttle_verdict in Ha as [->|Hret]; [by left|].
    destruct Hret as (pre & rcd & post & st & n & w1 & _ & _ & Hret).
    apply check_record_return in Hret as [(_ & -> & _)|(_ & _ & d & -> & -> & _)];
      [by left|right; by exists d]. }
  destruct (restriction_cases L kw w)
    as [(_ & _ & ->)|(size & Hsize & [(_ & ->)|(Hne & Hnt)])];
    [done|intros [= <-]; by left|].
  rewrite (restriction_checks L kw size w Hsize Hne Hnt).
  destruct (apply_throttle L (kw_sender kw) _ _ size true w) as [[a1|e1] w1] eqn:H1; [|done].
  destruct (Py.startswith "DUNNO" a1).
  - destruct (apply_throttle L (kw_recipient kw) _ _ size false w1)
      as [[a2|e2] w2] eqn:H2; [|done].
    destruct (Py.startswith "DUNNO" a2); intros [= <-]; [by left|].
    apply (Hone (kw_recipient kw) false size w1). by rewrite H2.
  - intros [= <-]. apply (Hone (kw_sender kw) true size w). by rewrite H1.
Qed.

Lemma restriction_verdict_range_witness :
  "REJECT Exceeds max messages" = SMTP_ACTIONS Sample.L "default"
  ∨ ∃ d, "RCPT" = phase_of d
         ∧ "REJECT Exceeds max messages" = SMTP_ACTIONS Sample.L (verdict_key d).
Proof.
  apply (restriction_verdict_range Sample.L
           (Kwargs "u@a.com" "a.com" "v@b.org" "b.org" "10.0.0.1" "RCPT" "1200")
           (Sample.at_time 1000 [Row 1 "u@a.com" 8 360 1 (-1) (-1) 5 0 900 900])).
  vm_compute. reflexivity.
Defined.

(** ** The settings parser: failures, keys and values *)

Lemma convert_items_raises {database : Type} (L : Libs database) (vi : bool)
    (fragments : list string) :
  ∀ sd,
  (∀ e, convert_items L vi (List.filter (Py.contains ":") fragments) sd = Raise e →
        e = ValueError)
  ∧ (convert_items L vi (List.filter (Py.contains ":") fragments) sd = Raise ValueError
     ↔ Exists (λ fragment, (2 < List.length (Py.split ":" fragment))%nat) fragments).
Proof.
  induction fragments as [|fragment rest IH]; intros sd; simpl.
  { split; [done|]. split; [done|]. by intros ?%Exists_nil. }
  rewrite Exists_cons.
  destruct (Py.contains ":" fragment) eqn:Hc; simpl.
  - rewrite (contains_truthy _ _ Hc). apply split_with_separator in Hc.
    destruct (Py.split ":" fragment) as [|key [|value [|x more]]]; simpl in *; try lia.
    + destruct (IH (<[key:=convert_value L vi value]> sd)) as [He Hiff].
      split; [done|]. rewrite Hiff. split; [by right|]. intros [?|?]; [lia|done].
    + split; [by intros e [= <-]|]. split; [intros _; left; lia|done].
  - rewrite (split_without_separator _ _ Hc). simpl.
    destruct (IH sd) as [He Hiff]. split; [done|].
    rewrite Hiff. split; [by right|]. intros [?|?]; [lia|done].
Qed.

Lemma parser_raises_on_long_fragment {database : Type} (L : Libs database)
    (s : string) (vi : bool) :
  Exists (λ fragment, (2 < List.length (Py.split ":" fragment))%nat) (Py.split ";" s) →
  convert_throttle_setting_to_dict L s vi = Raise ValueError.
Proof.
  unfold convert_throttle_setting_to_dict, setting_items.
  destruct s as [|c s]; [|apply convert_items_raises].
  intros [H|H]%Exists_cons; [simpl in H; lia|by apply Exists_nil in H].
Qed.

(** X13. The settings parser fails exactly on a fragment with two or more
    colons: it raises ValueError if and only if some fragment between
    semicolons splits at its colons into more than two parts, and it raises
    nothing else. *)
Theorem settings_parser_fails_iff {database : Type} (L : Libs database)
    (s : string) (value_is_integer : bool) :
  (∀ e, convert_throttle_setting_to_dict L s value_is_integer = Raise e → e = ValueError)
  ∧ (convert_throttle_setting_to_dict L s value_is_integer = Raise ValueError
     ↔ Exists (λ fragment, (2 < List.length (Py.split ":" fragment))%nat)
         (Py.split ";" s)).
Proof.
  unfold convert_throttle_setting_to_dict, setting_items.
  destruct s as [|c s]; [|apply convert_items_raises].
  simpl. split; [done|]. split; [done|].
  intros [H|H]%Exists_cons; [simpl in H; lia|by apply Exists_nil in H].
Qed.

Lemma settings_parser_fails_iff_witness :
  convert_throttle_setting_to_dict Sample.L "msg_size:5;max_msgs:1:2" true = Raise ValueError.
Proof.
  apply (proj2 (proj2 (settings_parser_fails_iff Sample.L "msg_size:5;max_msgs:1:2" true))).
  apply Exists_cons_tl, Exists_cons_hd. vm_compute. lia.
Defined.

Lemma convert_success_fragments {database : Type} (L : Libs database)
    (s : string) (vi : bool) (sd : gmap string setting_value) :
  convert_throttle_setting_to_dict L s vi = Ok sd →
  ∀ key, sd !! key
         = snd <$> last (filter (λ kv, kv.1 = key) (omap (kept_pair L vi) (Py.split ";" s))).
Proof.
  intros Hok.
  assert (Forall (λ fragment, (List.length (Py.split ":" fragment) ≤ 2)%nat) (Py.split ";" s))
    as Hlen.
  { apply Forall_forall. intros fragment Hin.
    destruct (decide (2 < List.length (Py.split ":" fragment))%nat) as [Hbig|]; [|lia].
    assert (convert_throttle_setting_to_dict L s vi = Raise ValueError); [|congruence].
    apply (parser_raises_on_long_fragment L s vi). apply Exists_exists. eauto. }
  revert Hok. unfold convert_throttle_setting_to_dict, setting_items.
  destruct s as [|c s]; simpl negb; cbv iota.
  - intros [= <-] key. by rewrite lookup_empty.
  - rewrite convert_items_kept by done. intros [= <-] key.
    rewrite foldl_insert_lookup, lookup_empty. by destruct (last _).
Qed.

(** X14. The entries of a parsed settings string.  When the parser succeeds,
    the keys of the dictionary are exactly the keys of the fragments that
    split at a colon into a key and a value, and every value stored is the
    conversion of the value of such a fragment with that key: no key is
    invented and none is lost. *)
Theorem settings_parser_entries {database : Type} (L : Libs database)
    (s : string) (value_is_integer : bool) (sd : gmap string setting_value) :
  convert_throttle_setting_to_dict L s value_is_integer = Ok sd →
  ∀ key,
    (is_Some (sd !! key)
     ↔ ∃ fragment value, fragment ∈ Py.split ";" s ∧ Py.split ":" fragment = [key; value])
    ∧ (∀ v, sd !! key = Some v →
         ∃ fragment value,
           fragment ∈ Py.split ";" s ∧ Py.split ":" fragment = [key; value]
           ∧ v = convert_value L value_is_integer value).
Proof.
  intros Hok key. rewrite (convert_success_fragments L s value_is_integer sd Hok key).
  assert (∀ v, snd <$> last (filter (λ kv, kv.1 = key)
                               (omap (kept_pair L value_is_integer) (Py.split ";" s)))
               = Some v →
    ∃ fragment value,
      fragment ∈ Py.split ";" s ∧ Py.split ":" fragment = [key; value]
      ∧ v = convert_value L value_is_integer value) as Hval.
  { intros v Hv. apply fmap_Some in Hv as ([k v'] & Hlast & ->).
    apply last_Some in Hlast as [l' Hl'].
    assert ((k, v') ∈ filter (λ kv, kv.1 = key)
              (omap (kept_pair L value_is_integer) (Py.split ";" s))) as Hin
      by (rewrite Hl'; apply elem_of_app; right; by apply list_elem_of_singleton).
    apply list_elem_of_filter in Hin as [Hk Hin]. simpl in Hk. subst k.
    apply list_elem_of_omap in Hin as (fragment & Hfrag & Hkept).
    unfold kept_pair in Hkept.
    destruct (Py.split ":" fragment) as [|k [|value [|x more]]] eqn:Hsplit; try done.
    injection Hkept as -> <-. by exists fragment, value. }
  split; [|exact Hval]. split.
  - intros [v Hv]. destruct (Hval v Hv) as (fragment & value & ? & ? & _). eauto.
  - intros (fragment & value & Hin & Hsplit).
    apply fmap_is_Some, last_is_Some. intros Hnil.
    assert ((key, convert_value L value_is_integer value)
            ∈ filter (λ kv, kv.1 = key)
                (omap (kept_pair L value_is_integer) (Py.split ";" s))) as Hmem.
    { apply list_elem_of_filter. split; [done|].
      apply list_elem_of_omap. exists fragment. split; [done|].
      unfold kept_pair. by rewrite Hsplit. }
    rewrite Hnil in Hmem. by apply elem_of_nil in Hmem.
Qed.

Lemma settings_parser_entries_witness :
  let sd : gmap string setting_value :=
    <["msg_size" := VStr "x"]> (<["max_msgs" := VInt 100]> ∅) in
  convert_throttle_setting_to_dict Sample.L "max_msgs:100;rate;msg_size:x" true = Ok sd
  ∧ is_Some (sd !! "msg_size")
  ∧ ¬ ∃ fragment value,
        fragment ∈ Py.split ";" "max_msgs:100;rate;msg_size:x"
        ∧ Py.split ":" fragment = ["rate"; value].
Proof.
  intros sd.
  assert (convert_throttle_setting_to_dict Sample.L "max_msgs:100;rate;msg_size:x" true
          = Ok sd) as Hsd by (vm_compute; reflexivity).
  pose proof (settings_parser_entries Sample.L "max_msgs:100;rate;msg_size:x" true sd Hsd)
    as Hent.
  split; [exact Hsd|]. split.
  - apply (proj1 (Hent "msg_size")). exists "msg_size:x", "x". split; [|reflexivity].
    apply list_elem_of_In. vm_compute. tauto.
  - intros Hex. apply (proj1 (Hent "rate")) in Hex as [v Hv].
    vm_compute in Hv. discriminate.
Defined.

Lemma split_snoc (c : ascii) (s : string) :
  Py.split c (s +:+ String c "") = Py.split c s ++ [""].
Proof.
  induction s as [|d s IH]; simpl.
  - by rewrite bool_decide_eq_true_2.
  - case_bool_decide; [by rewrite IH|].
    rewrite IH. pose proof (split_nonempty c s). by destruct (Py.split c s).
Qed.

(** X15. A trailing semicolon changes nothing: a settings string and the
    same string followed by a semicolon parse to the same result, dictionary
    or exception. *)
Theorem settings_parser_trailing_semicolon {database : Type} (L : Libs database)
    (s : string) (value_is_integer : bool) :
  convert_throttle_setting_to_dict L (s +:+ ";") value_is_integer
  = convert_throttle_setting_to_dict L s value_is_integer.
Proof.
  unfold convert_throttle_setting_to_dict, setting_items.
  destruct s as [|c s]; [reflexivity|].
  change (String c s +:+ ";") with (String c (s +:+ ";")). cbv beta iota delta [Py.truthy negb].
  change (String c (s +:+ ";")) with (String c s +:+ String ";" "").
  rewrite split_snoc. by rewrite List.filter_app, app_nil_r.
Qed.

Lemma contains_fragments (c sep : ascii) (s : string) :
  Py.contains c s = false → Forall (λ f, Py.contains c f = false) (Py.split sep s).
Proof.
  induction s as [|d s IH]; simpl; [by repeat constructor|].
  intros [Hd Hs]%orb_false_iff. specialize (IH Hs).
  destruct (bool_decide (d = sep)); [by constructor|].
  destruct (Py.split sep s) as [|f fs].
  - repeat constructor. simpl. by rewrite Hd.
  - apply Forall_cons in IH as [Hf Hfs]. constructor; [|done]. simpl. by rewrite Hd, Hf.
Qed.

(** X16. A settings string without any colon parses to the empty dictionary:
    nothing is stored and nothing is raised, whatever else the string
    contains. *)
Theorem settings_parser_without_colon {database : Type} (L : Libs database)
    (s : string) (value_is_integer : bool) :
  Py.contains ":" s = false →
  convert_throttle_setting_to_dict L s value_is_integer = Ok ∅.
Proof.
  intros Hc. unfold convert_throttle_setting_to_dict, setting_items.
  destruct (negb (Py.truthy s)); [done|].
  apply (contains_fragments _ ";"%char) in Hc.
  induction Hc as [|f fs Hf _ IH]; simpl; [done|]. by rewrite Hf.
Qed.

Lemma settings_parser_without_colon_witness :
  convert_throttle_setting_to_dict Sample.L "max_msgs=100;max_quota=5;" true = Ok ∅.
Proof.
  apply settings_parser_without_colon. reflexivity.
Defined.

(** ** What the loop stages and what the call executes *)

Lemma check_record_rcpt_sets {database : Type} (L : Libs database) (size : Z)
    (st st1 : loop_state) (rcd : row) (w w1 : world database) :
  check_record L "RCPT" size st rcd w = (Ok (Next st1), w1) →
  sql_update_sets st1 = <[t_id rcd := []]> (sql_update_sets st).
Proof.
  unfold check_record. case_bool_decide; [done|].
  unfold bind at 1. rewrite time_time_advance.
  destruct (tracking _ rcd) as [[expired cm] cq]. unfold check_limits, ret. simpl.
  destruct (continue_check_max_msgs st); simpl;
    [destruct (bool_decide (max_msgs rcd > 0) && bool_decide (cm >= max_msgs rcd))|];
    by intros [= <- _].
Qed.

(** X17. The RCPT phase stages nothing: when the loop has gone through the
    records, the dictionary holds one key for each record read, each with an
    empty list of assignments. *)
Theorem rcpt_stages_nothing {database : Type} (L : Libs database) (size : Z)
    (recs : list row) (st : loop_state) (w w1 : world database) :
  walk L "RCPT" size initial_state recs w = (Ok (Next st), w1) →
  dom (sql_update_sets st) = list_to_set (t_id <$> recs)
  ∧ map_Forall (λ _ assignments, assignments = []) (sql_update_sets st).
Proof.
  intros Hw. split.
  { apply walk_keys in Hw as [Hd _]. simpl in Hd.
    by rewrite dom_empty_L, (right_id_L ∅ (∪)) in Hd. }
  assert (∀ recs st0 st1 (w0 w2 : world database),
    walk L "RCPT" size st0 recs w0 = (Ok (Next st1), w2) →
    map_Forall (λ (_ : Z) (assignments : list string), assignments = []) (sql_update_sets st0) →
    map_Forall (λ (_ : Z) (assignments : list string), assignments = []) (sql_update_sets st1))
    as Hgen.
  { clear. intros recs. induction recs as [|r rest IH]; intros st0 st1 w0 w2 Hw Hall;
      simpl in Hw.
    { by injection Hw as <- _. }
    unfold bind in Hw.
    destruct (check_record L "RCPT" size st0 r w0) as [[[a|st2]|e] w3] eqn:Hc;
      [done| |done].
    apply (IH _ _ _ _ Hw). rewrite (check_record_rcpt_sets L size st0 st2 r w0 w3 Hc).
    by apply map_Forall_insert_2. }
  apply (Hgen recs initial_state st w w1 Hw). apply map_Forall_empty.
Qed.

Lemma rcpt_stages_nothing_witness :
  let recs := [Row 1 "u@a.com" 8 360 100 (-1) (-1) 5 0 900 900;
               Row 2 "@a.com" 5 360 (-1) 10 10 0 0 900 900] in
  let st := LoopState true false true (<[2 := []]> (<[1 := []]> ∅)) (Some 2) in
  walk Sample.L "RCPT" 0 initial_state recs (Sample.at_time 1000 recs)
    = (Ok (Next st), World (recs, 0%nat) (λ _, 1000) 2 [])
  ∧ map_Forall (λ _ assignments, assignments = []) (sql_update_sets st).
Proof.
  intros recs st.
  assert (walk Sample.L "RCPT" 0 initial_state recs (Sample.at_time 1000 recs)
          = (Ok (Next st), World (recs, 0%nat) (λ _, 1000) 2 [])) as Hw
    by (vm_compute; reflexivity).
  split; [exact Hw|].
  exact (proj2 (rcpt_stages_nothing Sample.L 0 recs st _ _ Hw)).
Defined.

(** X18. Whatever the phase, the records and the outcome, [apply_throttle]
    executes exactly one statement, its lookup, and leaves the database as
    it was: the commit loop raises before its first [conn.execute], so no
    UPDATE is ever executed.  The clock is only read. *)
Theorem apply_throttle_only_looks_up {database : Type} (L : Libs database)
    (user client ps : string) (size : Z) (sender : bool) (w : world database) :
  db (apply_throttle L user client ps size sender w).2 = db w
  ∧ clock (apply_throttle L user client ps size sender w).2 = clock w
  ∧ (ticks w ≤ ticks (apply_throttle L user client ps size sender w).2)%nat
  ∧ executed (apply_throttle L user client ps size sender w).2
    = executed w ++ [lookup_sql L user client sender].
Proof.
  destruct (apply_throttle_frame L user client ps size sender w) as (r & n & ->).
  simpl. split_and!; (done || lia).
Qed.

(** X19. The quota rejection, when its record is reached.  If the loop goes
    through the records before a record with a period, these records all
    defer max_quota, the record's max_quota is positive and reached by the
    stored cur_quota, its window is open at the reading of the clock made
    for it, and its own size check does not reject (msg_size was settled
    before, or is not positive, or is not exceeded), then the call is
    rejected with the quota verdict. *)
Theorem quota_rejection_when_reached {database : Type} (L : Libs database)
    (user client : string) (size : Z) (sender : bool) (w w1 : world database)
    (pre post : list row) (rcd : row) (st : loop_state) :
  matching L user client sender w = pre ++ rcd :: post →
  walk L "END-OF-MESSAGE" size initial_state pre (queried L user client sender w)
    = (Ok (Next st), w1) →
  Forall (λ r, max_quota r < 0) pre →
  period rcd ≠ 0 → 0 < max_quota rcd → cur_quota rcd >= max_quota rcd →
  clock w1 (ticks w1) ≤ init_time rcd + period rcd →
  (Forall (λ r, msg_size r < 0) pre → msg_size rcd ≤ 0 ∨ size ≤ msg_size rcd) →
  (apply_throttle L user client "END-OF-MESSAGE" size sender w).1
    = Ok (SMTP_ACTIONS L "reject_exceed_max_quota").
Proof.
  intros Hm Hw Hpre Hp Hlim Hcur Hwin Hsize.
  rewrite apply_throttle_walk, Hm by (rewrite Hm; by destruct pre).
  rewrite walk_app, Hw.
  assert (continue_check_max_quota st = true) as Hq.
  { change (continue_check MaxQuota st = true).
    rewrite (walk_flag L MaxQuota size pre _ _ _ _ Hw). simpl.
    by apply bool_decide_eq_true_2. }
  assert (continue_check_msg_size st = true → msg_size rcd ≤ 0 ∨ size ≤ msg_size rcd)
    as Hs.
  { intros Hup. apply Hsize. change (continue_check MsgSize st = true) in Hup.
    rewrite (walk_flag L MsgSize size pre _ _ _ _ Hw) in Hup. simpl in Hup.
    by apply bool_decide_eq_true_1 in Hup. }
  simpl. unfold bind at 1, check_record. rewrite bool_decide_eq_false_2 by done.
  unfold bind at 1. rewrite time_time_advance. unfold tracking.
  rewrite bool_decide_eq_false_2 by lia.
  unfold check_limits, check_msg_size, check_max_quota, ret. rewrite Hq. simpl.
  rewrite orb_true_r.
  rewrite (bool_decide_eq_true_2 (max_quota rcd > 0)) by lia.
  rewrite (bool_decide_eq_true_2 (cur_quota rcd >= max_quota rcd)) by lia.
  destruct (continue_check_msg_size st); [|done].
  destruct (Hs eq_refl) as [Hle|Hle].
  - by rewrite (bool_decide_eq_false_2 (msg_size rcd > 0)) by lia.
  - destruct (bool_decide (msg_size rcd > 0)); [|done].
    by rewrite (bool_decide_eq_false_2 (size > msg_size rcd)) by lia.
Qed.

Lemma quota_rejection_when_reached_witness :
  let r1 := Row 1 "u@a.com" 8 360 (-1) (-1) 1000 0 0 900 900 in
  let r2 := Row 2 "@a.com" 5 360 (-1) 500 (-1) 7 600 900 900 in
  (apply_throttle Sample.L "u@a.com" "10.0.0.1" "END-OF-MESSAGE" 50 true
     (Sample.at_time 1000 [r1; r2])).1 = Ok "REJECT Exceeds quota".
Proof.
  intros r1 r2.
  apply (quota_rejection_when_reached Sample.L "u@a.com" "10.0.0.1" 50 true
           (Sample.at_time 1000 [r1; r2])
           (World ([r1; r2], 0%nat) (λ _, 1000) 2
              [lookup_sql Sample.L "u@a.com" "10.0.0.1" true])
           [r1] [] r2
           (LoopState false true true
              (<[1 := ["total_msgs = total_msgs + 1"; "cur_msgs = cur_msgs + 1";
                       "cur_quota = cur_quota + 50"; "last_time = 1000"]]> ∅)
              (Some 1))).
  - reflexivity.
  - vm_compute. reflexivity.
  - repeat constructor.
  - discriminate.
  - reflexivity.
  - discriminate.
  - discriminate.
  - intros H. apply Forall_cons in H as [H _]. simpl in H. lia.
Defined.
